(** * Partition quality scores of [nclib.evaluation.fitness_functions]

    A shallow embedding of the module's functions, and the properties its
    specification states about them.

    The Python code computes over integers (node and edge counts) and over
    binary64 numbers.  The functions are written once, over an interface
    [Arith] of the float operations they use, and read at two instances:
    - [R], exact real arithmetic, the formulas as mathematics;
    - [float], IEEE 754 binary64 with round-to-nearest-even, the numbers
      CPython and numpy compute with.

    Exceptions are values of the [result] monad.  The graph library
    (networkx), numpy, scipy and pquality are not part of the sources; the
    few primitives the module calls are modelled in the modules [nx], [np],
    [scipy] and [pq] below. *)

From Stdlib Require Import ZArith List Reals Lra Lia Floats.
From Stdlib Require Import Sorting.Permutation.
From stdpp Require Import base decidable option list gmap.

(** ** Python values: exceptions and numbers *)

Inductive exn := ZeroDivisionError | ValueError.

Inductive result (A : Type) :=
| Ok (a : A)
| Raise (e : exn).
Arguments Ok {A} a.
Arguments Raise {A} e.

#[export] Instance result_ret : MRet result := λ A a, Ok a.
#[export] Instance result_bind : MBind result := λ A B f r,
  match r with
  | Ok a => f a
  | Raise e => Raise e
  end.

(** A [for] loop whose body may raise: the state is threaded through the
    iterations and the first exception ends the loop. *)
Fixpoint for_loop {A S : Type} (body : S → A → result S) (l : list A) (s : S)
  : result S :=
  match l with
  | [] => Ok s
  | x :: l' => s' ← body s x; for_loop body l' s'
  end.

(** The operations on binary64 numbers that the module uses.  [div] is the
    IEEE (numpy) division, which never raises; Python's [/] is [truediv]
    and [fdiv] below. *)
Class Arith (F : Type) := {
  of_int : Z → F;
  add : F → F → F;
  sub : F → F → F;
  mul : F → F → F;
  div : F → F → F;
  sqrt : F → F;
  ltb : F → F → bool;
  is_zero : F → bool;
}.

(** [numpy.log] and [numpy.log2]. *)
Class Logs (F : Type) := {
  log : F → F;
  log2 : F → F;
}.

Section python_numbers.
Context {F : Type} `{Arith F}.

(** [a / b] on two Python ints: true division, a float.  (At the binary64
    instance the quotient is the correctly rounded one, as in CPython,
    when both ints are exactly representable, that is below 2^53.) *)
Definition truediv (a b : Z) : result F :=
  if (b =? 0)%Z then Raise ZeroDivisionError
  else Ok (div (of_int a) (of_int b)).

(** [x / y] on two Python floats. *)
Definition fdiv (x y : F) : result F :=
  if is_zero y then Raise ZeroDivisionError else Ok (div x y).

(** A number stored in a Python list: an int or a float. *)
Inductive number :=
| Int (z : Z)
| Float (x : F).

Definition to_float (v : number) : F :=
  match v with
  | Int z => of_int z
  | Float x => x
  end.

(** [a < b] on numbers. *)
Definition lt (a b : number) : bool :=
  match a, b with
  | Int x, Int y => (x <? y)%Z
  | _, _ => ltb (to_float a) (to_float b)
  end.
End python_numbers.
Arguments number F : clear implicits.

(** Exact arithmetic. *)
#[export] Instance R_arith : Arith R := {|
  of_int := IZR;
  add := Rplus;
  sub := Rminus;
  mul := Rmult;
  div := Rdiv;
  sqrt := R_sqrt.sqrt;
  ltb := λ x y, if Rlt_dec x y then true else false;
  is_zero := λ x, if Req_dec_T x 0 then true else false;
|}.

#[export] Instance R_logs : Logs R := {|
  log := ln;
  log2 := λ x, (ln x / ln 2)%R;
|}.

(** binary64.  [float(z)] rounds the integer to the nearest float. *)
Definition float_of_int (z : Z) : float :=
  SF2Prim (binary_normalize prec emax z 0 false).

#[export] Instance float_arith : Arith float := {|
  of_int := float_of_int;
  add := PrimFloat.add;
  sub := PrimFloat.sub;
  mul := PrimFloat.mul;
  div := PrimFloat.div;
  sqrt := PrimFloat.sqrt;
  ltb := PrimFloat.ltb;
  is_zero := λ x, PrimFloat.eqb x 0%float;
|}.

(** The mantissa of binary64 for a positive integer of at most 53 bits: the
    integer shifted left to 53 bits. *)
Definition mantissa53 (p : positive) : positive :=
  fst (shl_align p 0 (Zpos (digits2_pos p) - 53)).

(** ** The Python built-ins [min] and [max] *)

Module builtins.
Section builtins.
Context {F : Type} `{Arith F}.

(** [min(values)]: the first smallest item; [ValueError] on an empty list. *)
Definition min (values : list (number F)) : result (number F) :=
  match values with
  | [] => Raise ValueError
  | first :: rest =>
      Ok (fold_left (λ min_item item, if lt item min_item then item else min_item)
                    rest first)
  end.

(** [max(values)]: the first largest item; [ValueError] on an empty list. *)
Definition max (values : list (number F)) : result (number F) :=
  match values with
  | [] => Raise ValueError
  | first :: rest =>
      Ok (fold_left (λ max_item item, if lt max_item item then item else max_item)
                    rest first)
  end.
End builtins.
End builtins.

(** ** numpy *)

Module np.
Section np.
Context {F : Type} `{Arith F}.

(** [numpy.sum]: the items are added from left to right.  (numpy does so
    for arrays of fewer than eight items and adds longer ones in blocks;
    the order matters in binary64 only.) *)
Definition sum (xs : list F) : F := fold_left add xs (of_int 0).

(** [numpy.mean(values)]: the sum divided by the number of items. *)
Definition mean (values : list F) : F :=
  div (sum values) (of_int (Z.of_nat (length values))).

(** [numpy.std(values)]: the square root of the mean of the squared
    deviations from the mean. *)
Definition std (values : list F) : F :=
  let mu := mean values in
  sqrt (mean (map (λ x, let d := sub x mu in mul d d) values)).
End np.
End np.

(** ** scipy *)

Module scipy.
(** The binomial coefficient on naturals, by Pascal's rule. *)
Fixpoint binomial (n k : nat) : nat :=
  match k, n with
  | O, _ => 1
  | S _, O => 0
  | S k', S n' => binomial n' k' + binomial n' k
  end.

(** [scipy.special.comb(N, k, exact=True)] on non-negative ints: an exact
    Python int, 0 when [k > N]. *)
Definition comb (N : Z) (k : nat) : Z := Z.of_nat (binomial (Z.to_nat N) k).
End scipy.

(** ** networkx: undirected graphs *)

Module nx.
Section nx.
Context {node : Type} `{EqDecision node}.

(** An [nx.Graph]: its nodes in insertion order, and its undirected edges,
    each stored once as a pair of end points. *)
Record Graph := {
  nodes : list node;
  edges : list (node * node);
}.

(** The invariants of a graph: no node is listed twice and every edge joins
    two nodes of the graph. *)
Definition well_formed (G : Graph) : Prop :=
  NoDup (nodes G) ∧ Forall (λ e, e.1 ∈ nodes G ∧ e.2 ∈ nodes G) (edges G).

(** No edge joins a node to itself. *)
Definition loop_free (G : Graph) : Prop :=
  Forall (λ e, e.1 ≠ e.2) (edges G).

(** [G.number_of_nodes()], also [len(G)]. *)
Definition number_of_nodes (G : Graph) : Z := Z.of_nat (length (nodes G)).

(** [G.number_of_edges()]. *)
Definition number_of_edges (G : Graph) : Z := Z.of_nat (length (edges G)).

(** The number of edge ends at [v]; a self-loop has both its ends there. *)
Definition ends_at (v : node) (es : list (node * node)) : nat :=
  length (filter (λ e, e.1 = v) es) + length (filter (λ e, e.2 = v) es).

(** [G.degree(v)]. *)
Definition degree (G : Graph) (v : node) : Z := Z.of_nat (ends_at v (edges G)).

(** [nx.subgraph(G, nbunch)]: the subgraph induced on the nodes of [G] that
    are in [nbunch]; nodes of [nbunch] outside [G] are ignored. *)
Definition subgraph (G : Graph) (nbunch : list node) : Graph :=
  let kept := filter (λ v, v ∈ nbunch) (nodes G) in
  {| nodes := kept;
     edges := filter (λ e, e.1 ∈ kept ∧ e.2 ∈ kept) (edges G) |}.

#[global] Instance well_formed_dec (G : Graph) : Decision (well_formed G).
Proof. unfold well_formed. apply _. Defined.

#[global] Instance loop_free_dec (G : Graph) : Decision (loop_free G).
Proof. unfold loop_free. apply _. Defined.
End nx.
Arguments Graph node : clear implicits.
End nx.

(** ** pquality *)

Module pq.
(** The scores of [pq.PartitionQuality] that the module passes to
    [quality_indexes]. *)
Inductive metric :=
| average_internal_degree
| internal_edge_density
| triangle_participation_ratio
| edges_inside
| fraction_over_median_degree
| normalized_cut
| expansion
| cut_ratio
| conductance
| max_odf
| avg_odf
| flake_odf.

#[global] Instance metric_eq_dec : EqDecision metric.
Proof. solve_decision. Defined.

(** The library's implementation of the scores: what a call with the
    community alone returns, and what a call with the graph and the
    community returns. *)
Class PartitionQuality (node F : Type) := {
  call_community : metric → nx.Graph node → number F;
  call_graph_community : metric → nx.Graph node → nx.Graph node → number F;
}.

Section community_modularity.
Context {node : Type} `{Countable node} {F : Type} `{Arith F}.

(** The edges of [graph] whose two end points are assigned to [com]. *)
Definition links_inside (partition : gmap node nat) (graph : nx.Graph node)
    (com : nat) : Z :=
  Z.of_nat (length (filter (λ e, partition !! e.1 = Some com ∧
                                  partition !! e.2 = Some com)
                           (nx.edges graph))).

(** The sum of the degrees of the nodes assigned to [com]. *)
Definition degree_sum (partition : gmap node nat) (graph : nx.Graph node)
    (com : nat) : Z :=
  foldr Z.add 0%Z
    (map (nx.degree graph)
         (filter (λ v, partition !! v = Some com) (nx.nodes graph))).

(** Modelled from the spec: [pq.PartitionQuality.community_modularity], the
    partition-modularity routine of the pquality library, which is not part
    of the sources.  The spec gives Q = Σ_c (e_c/m − (d_c/2m)²), the sum
    ranging over the community ids of the assignment, with e_c the edges
    inside c, d_c the degree sum of c and m the number of edges. *)
Definition community_modularity (partition : gmap node nat)
    (graph : nx.Graph node) : result F :=
  let m := nx.number_of_edges graph in
  for_loop (λ res com,
      e ← truediv (links_inside partition graph com) m;
      d ← truediv (degree_sum partition graph com) (2 * m);
      Ok (add res (sub e (mul d d))))
    (remove_dups (map snd (map_to_list partition))) (of_int 0).
End community_modularity.
End pq.

(** ** The module [fitness_functions] *)

Section fitness_functions.
Context {node : Type} `{Countable node}.
Context {F : Type} `{Arith F} `{Logs F} `{pq.PartitionQuality node F}.

Abbreviation Graph := (nx.Graph node).

(** The [communities] attribute of a clustering: the communities in order,
    each a collection of nodes. *)
Abbreviation Communities := (list (list node)).

Record FitnessResult := {
  min : number F;
  max : number F;
  mean : F;
  std : F;
}.

(** What a score returns: the summary, or the list of values. *)
Inductive Fitness :=
| Summary (r : FitnessResult)
| Values (values : list (number F)).

(** The callable passed as [scoring_function]: a score of pquality, or a
    function of the module's own, called with the graph and the community. *)
Inductive scoring_function :=
| PQ (f : pq.metric)
| Lambda (f : Graph → Graph → number F).

(** [convert_graph_formats(graph, nx.Graph)] of [nclib.utils], not part of
    the sources: a graph that already is an [nx.Graph] is returned as it is. *)
Definition convert_graph_formats (graph : Graph) : Graph := graph.

(** The call made by the loop body of [quality_indexes] for one community. *)
Definition score (scoring_function : scoring_function) (graph community : Graph)
  : number F :=
  match scoring_function with
  | PQ f =>
      if decide (f ∈ [pq.average_internal_degree; pq.internal_edge_density;
                      pq.triangle_participation_ratio; pq.edges_inside;
                      pq.fraction_over_median_degree])
      then pq.call_community f community
      else pq.call_graph_community f graph community
  | Lambda f => f graph community
  end.

(** [quality_indexes(graph, communities, scoring_function, summary=True)];
    [summary] is [None] when the keyword is not passed. *)
Definition quality_indexes (graph : Graph) (communities : Communities)
    (scoring_function : scoring_function) (summary : option bool)
  : result Fitness :=
  let graph := convert_graph_formats graph in
  let values :=
    fold_left (λ values com,
        let community := nx.subgraph graph com in
        values ++ [score scoring_function graph community])
      communities [] in
  if default true summary then
    mn ← builtins.min values;
    mx ← builtins.max values;
    Ok (Summary {| min := mn; max := mx;
                   mean := np.mean (map to_float values);
                   std := np.std (map to_float values) |})
  else Ok (Values values).

(** The indexed scores; [kwargs] is the optional [summary] keyword. *)
Definition normalized_cut (graph : Graph) (community : Communities)
    (kwargs : option bool) : result Fitness :=
  quality_indexes graph community (PQ pq.normalized_cut) kwargs.

Definition internal_edge_density (graph : Graph) (community : Communities)
    (kwargs : option bool) : result Fitness :=
  quality_indexes graph community (PQ pq.internal_edge_density) kwargs.

Definition average_internal_degree (graph : Graph) (community : Communities)
    (kwargs : option bool) : result Fitness :=
  quality_indexes graph community (PQ pq.average_internal_degree) kwargs.

Definition fraction_over_median_degree (graph : Graph) (community : Communities)
    (kwargs : option bool) : result Fitness :=
  quality_indexes graph community (PQ pq.fraction_over_median_degree) kwargs.

Definition expansion (graph : Graph) (community : Communities)
    (kwargs : option bool) : result Fitness :=
  quality_indexes graph community (PQ pq.expansion) kwargs.

Definition cut_ratio (graph : Graph) (community : Communities)
    (kwargs : option bool) : result Fitness :=
  quality_indexes graph community (PQ pq.cut_ratio) kwargs.

Definition edges_inside (graph : Graph) (community : Communities)
    (kwargs : option bool) : result Fitness :=
  quality_indexes graph community (PQ pq.edges_inside) kwargs.

Definition conductance (graph : Graph) (community : Communities)
    (kwargs : option bool) : result Fitness :=
  quality_indexes graph community (PQ pq.conductance) kwargs.

Definition max_odf (graph : Graph) (community : Communities)
    (kwargs : option bool) : result Fitness :=
  quality_indexes graph community (PQ pq.max_odf) kwargs.

Definition avg_odf (graph : Graph) (community : Communities)
    (kwargs : option bool) : result Fitness :=
  quality_indexes graph community (PQ pq.avg_odf) kwargs.

Definition flake_odf (graph : Graph) (community : Communities)
    (kwargs : option bool) : result Fitness :=
  quality_indexes graph community (PQ pq.flake_odf) kwargs.

Definition triangle_participation_ratio (graph : Graph) (community : Communities)
    (kwargs : option bool) : result Fitness :=
  quality_indexes graph community (PQ pq.triangle_participation_ratio) kwargs.

(** [size]: the score is [lambda graph, com: len(com)], the number of nodes
    of the induced subgraph it is called with. *)
Definition size (graph : Graph) (community : Communities)
    (kwargs : option bool) : result Fitness :=
  quality_indexes graph community
    (Lambda (λ graph com, Int (nx.number_of_nodes com))) kwargs.

(** [enumerate(l)]. *)
Definition enumerate {A : Type} (l : list A) : list (nat * A) :=
  zip (seq 0 (length l)) l.

(** The node-to-community-id dictionary built by the two nested loops of
    [newman_girvan_modularity]. *)
Definition assignment (communities : Communities) : gmap node nat :=
  fold_left (λ partition '(cid, com),
      fold_left (λ partition node, <[node := cid]> partition) com partition)
    (enumerate communities) ∅.

Definition newman_girvan_modularity (graph : Graph) (communities : Communities)
  : result F :=
  let graph := convert_graph_formats graph in
  let partition := assignment communities in
  pq.community_modularity partition graph.

Definition erdos_renyi_modularity (graph : Graph) (communities : Communities)
  : result F :=
  let m := nx.number_of_edges graph in
  let n := nx.number_of_nodes graph in
  q ← for_loop (λ q community,
         let c := nx.subgraph graph community in
         let mc := nx.number_of_edges c in
         let nc := nx.number_of_nodes c in
         x ← truediv (m * nc * (nc - 1)) (n * (n - 1));
         Ok (add q (sub (of_int mc) x)))
       communities (of_int 0);
  r ← truediv 1 m;
  Ok (mul r q).

Definition modularity_density (graph : Graph) (communities : Communities)
  : result F :=
  for_loop (λ q community,
      let c := nx.subgraph graph community in
      let nc := nx.number_of_nodes c in
      let dint := map (λ node, nx.degree c node) (nx.nodes c) in
      let dext := map (λ node, (nx.degree graph node - nx.degree c node)%Z)
                      (nx.nodes c) in
      r ← truediv 1 nc;
      Ok (add q (mul r (sub (np.mean (map of_int dint))
                            (np.mean (map of_int dext))))))
    communities (of_int 0).

Definition z_modularity (graph : Graph) (communities : Communities)
  : result F :=
  let m := nx.number_of_edges graph in
  '(mmc, dc2m) ← for_loop (λ '(mmc, dc2m) community,
         let c := nx.subgraph graph community in
         let mc := nx.number_of_edges c in
         let dc := fold_left (λ dc node, (dc + nx.degree c node)%Z)
                             (nx.nodes c) 0%Z in
         a ← truediv mc m;
         b ← truediv dc (2 * m);
         Ok (add mmc a, add dc2m (mul b b)))
       communities (of_int 0, of_int 0);
  Ok (div (sub mmc dc2m) (sqrt (mul dc2m (sub (of_int 1) dc2m)))).

Definition surprise (graph : Graph) (communities : Communities) : result F :=
  let m := nx.number_of_edges graph in
  let n := nx.number_of_nodes graph in
  let '(q, qa) :=
    fold_left (λ '(q, qa) community,
        let c := nx.subgraph graph community in
        let mc := nx.number_of_edges c in
        let nc := nx.number_of_nodes c in
        ((q + mc)%Z, (qa + scipy.comb nc 2)%Z))
      communities (0%Z, 0%Z) in
  q ← truediv q m;
  qa ← truediv qa (scipy.comb n 2);
  a ← fdiv q qa;
  b ← fdiv (sub (of_int 1) q) (sub (of_int 1) qa);
  Ok (mul (of_int m)
          (add (mul q (log a)) (mul (sub (of_int 1) q) (log2 b)))).

Definition significance (graph : Graph) (communities : Communities)
  : result F :=
  let m := nx.number_of_edges graph in
  let binom := scipy.comb m 2 in
  p ← truediv m binom;
  for_loop (λ q community,
      let c := nx.subgraph graph community in
      let nc := nx.number_of_nodes c in
      let mc := nx.number_of_edges c in
      let binom_c := scipy.comb nc 2 in
      pc ← truediv mc binom_c;
      a ← fdiv pc p;
      b ← fdiv (sub (of_int 1) pc) (sub (of_int 1) p);
      Ok (add q (mul (of_int binom_c)
                     (add (mul pc (log a))
                          (mul (sub (of_int 1) pc) (log b))))))
    communities (of_int 0).
End fitness_functions.

(** ** The formulas of the specification, and the parts of the loops *)

Section formulas.
Context {node : Type} `{Countable node} {F : Type} `{Arith F}.

Abbreviation Graph := (nx.Graph node).
Abbreviation Communities := (list (list node)).

(** The values of [quality_indexes], one per community, in order. *)
Definition scores `{!pq.PartitionQuality node F} (graph : Graph)
    (communities : Communities) (scoring_function : scoring_function (F := F))
  : list (number F) :=
  map (λ com, score scoring_function graph (nx.subgraph graph com)) communities.

(** The outer loop, started at community id [k] with the dictionary
    [partition]. *)
Definition assign_from (k : nat) (communities : Communities)
    (partition : gmap node nat) : gmap node nat :=
  fold_left (λ partition '(cid, com),
      fold_left (λ partition node, <[node := cid]> partition) com partition)
    (zip (seq k (length communities)) communities) partition.

(** The degree sum that [z_modularity] accumulates for a community. *)
Definition degree_total (graph : Graph) (community : list node) : Z :=
  let c := nx.subgraph graph community in
  fold_left (λ dc v, (dc + nx.degree c v)%Z) (nx.nodes c) 0%Z.

(** One community's term of the Erdos-Renyi sum, mc − m·nc·(nc−1)/(n·(n−1)). *)
Definition erdos_renyi_term (graph : Graph) (community : list node) : F :=
  let m := nx.number_of_edges graph in
  let n := nx.number_of_nodes graph in
  let mc := nx.number_of_edges (nx.subgraph graph community) in
  let nc := nx.number_of_nodes (nx.subgraph graph community) in
  sub (of_int mc) (div (of_int (m * nc * (nc - 1))) (of_int (n * (n - 1)))).

(** One community's term of the modularity density. *)
Definition modularity_density_term (graph : Graph) (community : list node) : F :=
  let c := nx.subgraph graph community in
  let dint := map (λ v, nx.degree c v) (nx.nodes c) in
  let dext := map (λ v, (nx.degree graph v - nx.degree c v)%Z) (nx.nodes c) in
  mul (div (of_int 1) (of_int (nx.number_of_nodes c)))
      (sub (np.mean (map of_int dint)) (np.mean (map of_int dext))).

(** Erdos-Renyi modularity as the specification writes it:
    Q = (1/m) Σ_c [mc − m·nc·(nc−1)/(n·(n−1))], the sum taken in the order
    of the communities. *)
Definition erdos_renyi_formula (graph : nx.Graph node)
    (communities : list (list node)) : F :=
  let m := nx.number_of_edges graph in
  mul (div (of_int 1) (of_int m))
      (np.sum (map (erdos_renyi_term graph) communities)).

(** The simplified expression of z-modularity, in which the degree sum of a
    community is replaced by twice its number of edges:
    (Σ_c mc/m − Σ_c (mc/m)²) / sqrt(Σ_c (mc/m)² · (1 − Σ_c (mc/m)²)). *)
Definition z_modularity_simplified (graph : nx.Graph node)
    (communities : list (list node)) : F :=
  let m := nx.number_of_edges graph in
  let ratio community :=
    div (of_int (nx.number_of_edges (nx.subgraph graph community))) (of_int m) in
  let s1 := np.sum (map ratio communities) in
  let s2 := np.sum (map (λ community, mul (ratio community) (ratio community))
                        communities) in
  div (sub s1 s2) (sqrt (mul s2 (sub (of_int 1) s2))).

(** The communities of a clustering of [graph] are sets of its nodes: no
    community lists a node twice or names a node outside the graph. *)
Definition node_subsets (graph : nx.Graph node)
    (communities : list (list node)) : Prop :=
  Forall (λ com, NoDup com ∧ com ⊆ nx.nodes graph) communities.

#[global] Instance node_subsets_dec (graph : nx.Graph node)
    (communities : list (list node)) :
  Decision (node_subsets graph communities).
Proof. unfold node_subsets. apply _. Defined.
End formulas.

(** ** Example graphs *)

(** The ring 0-1-2-3-0. *)
Definition ring : nx.Graph nat :=
  {| nx.nodes := [0; 1; 2; 3];
     nx.edges := [(0, 1); (1, 2); (2, 3); (3, 0)] |}.

(** One node and no edge. *)
Definition single_node : nx.Graph nat :=
  {| nx.nodes := [0]; nx.edges := [] |}.

(** Six nodes and three edges; of the pairs {0,1}, {2,3}, {4,5} only the
    last is joined by an edge. *)
Definition three_pairs : nx.Graph nat :=
  {| nx.nodes := [0; 1; 2; 3; 4; 5];
     nx.edges := [(0, 2); (1, 3); (4, 5)] |}.

(** Fifteen nodes in three groups of five, with one edge inside each group. *)
Definition three_fives : nx.Graph nat :=
  {| nx.nodes := seq 0 15;
     nx.edges := [(0, 1); (5, 6); (10, 11)] |}.

(** Fifteen nodes in three groups of five, with seven edges inside each
    group. *)
Definition three_fives_dense : nx.Graph nat :=
  {| nx.nodes := seq 0 15;
     nx.edges :=
       flat_map (λ k, [(k, k + 1); (k, k + 2); (k, k + 3); (k, k + 4);
                       (k + 1, k + 2); (k + 1, k + 3); (k + 1, k + 4)])
         [0; 5; 10] |}.

(** [pq.PartitionQuality.internal_edge_density] of pquality: the edges of
    the community over the number of pairs of its nodes,
    [float(ms) / (float(ns * (ns - 1)) / 2)], and 0 when that raises. *)
Definition pq_internal_edge_density {F : Type} `{Arith F}
    (community : nx.Graph nat) : number F :=
  let ms := nx.number_of_edges community in
  let ns := nx.number_of_nodes community in
  match fdiv (of_int ms) (div (of_int (ns * (ns - 1))) (of_int 2)) with
  | Ok internal_density => Float internal_density
  | Raise _ => Int 0
  end.

(** An implementation of the scores for the examples: the internal edge
    density and the number of edges inside; the scores that the examples do
    not look at are constant. *)
Definition example_scores {F : Type} `{Arith F} : pq.PartitionQuality nat F :=
  {| pq.call_community := λ f community,
       match f with
       | pq.internal_edge_density => pq_internal_edge_density community
       | pq.edges_inside => Int (nx.number_of_edges community)
       | _ => Int 0
       end;
     pq.call_graph_community := λ f graph community, Int 0 |}.

(** ** Further definitions *)

(** Two communities have the same nodes of the graph. *)
Definition same_nodes {node : Type} (graph : nx.Graph node)
    (com com' : list node) : Prop :=
  ∀ v, v ∈ nx.nodes graph → v ∈ com ↔ v ∈ com'.

(** The number of pairs of nodes inside the communities, the sum that
    [surprise] accumulates in [qa]. *)
Definition pairs_inside {node : Type} `{EqDecision node}
    (graph : nx.Graph node) (communities : list (list node)) : Z :=
  fold_left (λ qa community,
      (qa + scipy.comb (nx.number_of_nodes (nx.subgraph graph community)) 2)%Z)
    communities 0%Z.

(** Signs of binary64 numbers, on the floats of the specification
    [SpecFloat]. *)

(** A float that is not NaN. *)
Definition sf_number (x : spec_float) : Prop :=
  match x with S754_nan => False | _ => True end.

(** A float that is a zero or a finite number. *)
Definition sf_finite (x : spec_float) : Prop :=
  match x with S754_zero _ | S754_finite _ _ _ => True | _ => False end.

(** A float that is a zero, a positive number or plus infinity. *)
Definition sf_nonneg (x : spec_float) : Prop :=
  match x with
  | S754_zero _ | S754_finite false _ _ | S754_infinity false => True
  | _ => False
  end.

(** A float that is not NaN and has the sign [s], zeros apart. *)
Definition sf_signed (s : bool) (x : spec_float) : Prop :=
  match x with
  | S754_nan => False
  | S754_zero s' | S754_finite s' _ _ | S754_infinity s' => s' = s
  end.

(** * Properties *)

(** ** Loops *)

Section loops.
Context {A S : Type}.

(** A loop whose body raises [e] on the items that satisfy [guard], and
    otherwise updates the state with [g], raises [e] when some item
    satisfies [guard] and otherwise folds [g]. *)
Lemma for_loop_guard (guard : A → bool) (e : exn) (g : S → A → S)
    (body : S → A → result S) (l : list A) (s : S) :
  (∀ s x, body s x = if guard x then Raise e else Ok (g s x)) →
  for_loop body l s = if existsb guard l then Raise e else Ok (fold_left g l s).
Proof.
  intros Hbody. revert s.
  induction l as [|x l IH]; intros s; simpl; [done|].
  rewrite Hbody. destruct (guard x); simpl; [done|]. apply IH.
Qed.

(** A loop whose body never raises is a fold. *)
Lemma for_loop_fold (g : S → A → S) (body : S → A → result S)
    (l : list A) (s : S) :
  (∀ s x, body s x = Ok (g s x)) →
  for_loop body l s = Ok (fold_left g l s).
Proof.
  intros Hbody.
  rewrite (for_loop_guard (λ _, false) ZeroDivisionError g); [|done].
  replace (existsb (λ _, false) l) with false; [done|].
  induction l; simpl; done.
Qed.

(** Appending one value per item builds the list of the values in order. *)
Lemma fold_left_snoc {B : Type} (f : A → B) (l : list A) (acc : list B) :
  fold_left (λ values x, values ++ [f x]) l acc = acc ++ map f l.
Proof.
  revert acc. induction l as [|x l IH]; intros acc; simpl.
  - by rewrite app_nil_r.
  - rewrite IH. by rewrite <- app_assoc.
Qed.
End loops.

(** ** The indexed scores *)

Section indexed.
Context {node : Type} `{Countable node}.
Context {F : Type} `{Arith F} `{!pq.PartitionQuality node F}.

Abbreviation Graph := (nx.Graph node).
Abbreviation Communities := (list (list node)).

Lemma quality_indexes_values (graph : Graph) (communities : Communities)
    (scoring_function : scoring_function) :
  quality_indexes graph communities scoring_function (Some false)
  = Ok (Values (scores graph communities scoring_function)).
Proof.
  unfold quality_indexes, convert_graph_formats; simpl.
  by rewrite (fold_left_snoc
    (λ com, score scoring_function graph (nx.subgraph graph com))).
Qed.

Lemma quality_indexes_summary (graph : Graph) (communities : Communities)
    (scoring_function : scoring_function) (summary : option bool) :
  summary = None ∨ summary = Some true →
  quality_indexes graph communities scoring_function summary
  = (let values := scores graph communities scoring_function in
     mn ← builtins.min values;
     mx ← builtins.max values;
     Ok (Summary {| min := mn; max := mx;
                    mean := np.mean (map to_float values);
                    std := np.std (map to_float values) |})).
Proof.
  intros Hsum. unfold quality_indexes, convert_graph_formats.
  rewrite (fold_left_snoc
    (λ com, score scoring_function graph (nx.subgraph graph com))).
  by destruct Hsum as [-> | ->].
Qed.

Lemma min_nonempty (values : list (number F)) :
  values ≠ [] → ∃ mn, builtins.min values = Ok mn.
Proof. destruct values; [done|]. intros _. simpl. eauto. Qed.

Lemma max_nonempty (values : list (number F)) :
  values ≠ [] → ∃ mx, builtins.max values = Ok mx.
Proof. destruct values; [done|]. intros _. simpl. eauto. Qed.

Lemma scores_nonempty (graph : Graph) (communities : Communities)
    (scoring_function : scoring_function) :
  communities ≠ [] → scores graph communities scoring_function ≠ [].
Proof. by destruct communities. Qed.

(** C1.  On a non-empty partition, [quality_indexes] with [summary=False]
    returns, in the order of the communities, the score of the induced
    subgraph alone for the five subgraph-only scores and the score of the
    graph and the induced subgraph for the graph-relative ones; with
    [summary=True], or with the keyword left out, it returns the tuple of
    min, max, mean and std of that list. *)
Theorem quality_indexes_contract (graph : Graph) (communities : Communities) :
  communities ≠ [] →
  (∀ f, f ∈ [pq.average_internal_degree; pq.internal_edge_density;
             pq.triangle_participation_ratio; pq.edges_inside;
             pq.fraction_over_median_degree] →
     quality_indexes graph communities (PQ f) (Some false)
     = Ok (Values (map (λ com, pq.call_community f (nx.subgraph graph com))
                       communities)))
  ∧ (∀ f, f ∈ [pq.conductance; pq.expansion; pq.cut_ratio; pq.max_odf;
               pq.avg_odf; pq.flake_odf; pq.normalized_cut] →
     quality_indexes graph communities (PQ f) (Some false)
     = Ok (Values (map (λ com, pq.call_graph_community f graph
                                 (nx.subgraph graph com))
                       communities)))
  ∧ (∀ scoring_function, ∃ values mn mx,
       quality_indexes graph communities scoring_function (Some false)
       = Ok (Values values)
       ∧ length values = length communities
       ∧ builtins.min values = Ok mn
       ∧ builtins.max values = Ok mx
       ∧ ∀ summary, summary = None ∨ summary = Some true →
           quality_indexes graph communities scoring_function summary
           = Ok (Summary {| min := mn; max := mx;
                            mean := np.mean (map to_float values);
                            std := np.std (map to_float values) |})).
Proof.
  intros Hne. split_and!.
  - intros f Hf. rewrite quality_indexes_values. do 2 f_equal.
    apply map_ext. intros com. unfold score. by rewrite decide_True.
  - intros f Hf. rewrite quality_indexes_values. do 2 f_equal.
    apply map_ext. intros com.
    repeat (apply elem_of_cons in Hf as [-> | Hf]);
      [done.. | by apply elem_of_nil in Hf].
  - intros sf.
    destruct (min_nonempty (scores graph communities sf)) as [mn Hmn];
      [by apply scores_nonempty|].
    destruct (max_nonempty (scores graph communities sf)) as [mx Hmx];
      [by apply scores_nonempty|].
    exists (scores graph communities sf), mn, mx. split_and!.
    + apply quality_indexes_values.
    + unfold scores. by rewrite length_map.
    + done.
    + done.
    + intros summary Hsum. rewrite quality_indexes_summary by done.
      simpl. rewrite Hmn. simpl. rewrite Hmx. done.
Qed.

(** C6.  On an empty partition [quality_indexes] with [summary=True], or with
    the keyword left out, raises: [min] of an empty list is a [ValueError]. *)
Theorem quality_indexes_empty_partition (graph : Graph)
    (scoring_function : scoring_function) :
  quality_indexes graph [] scoring_function None = Raise ValueError
  ∧ quality_indexes graph [] scoring_function (Some true) = Raise ValueError.
Proof. done. Qed.
End indexed.

(** ** Graphs *)

Section graphs.
Context {node : Type} `{EqDecision node}.
Implicit Types (G : nx.Graph node) (v : node) (es : list (node * node)).

Lemma subgraph_nodes_NoDup G (nbunch : list node) :
  NoDup (nx.nodes G) → NoDup (nx.nodes (nx.subgraph G nbunch)).
Proof. intros Hnd. simpl. by apply NoDup_filter. Qed.

Lemma subgraph_well_formed G (nbunch : list node) :
  NoDup (nx.nodes G) → nx.well_formed (nx.subgraph G nbunch).
Proof.
  intros Hnd. split; [by apply subgraph_nodes_NoDup|].
  simpl. apply Forall_forall. intros e He.
  by apply list_elem_of_filter in He as [He _].
Qed.

(** A duplicate-free community of nodes of the graph induces a subgraph
    with as many nodes as the community has. *)
Lemma subgraph_number_of_nodes G (com : list node) :
  NoDup (nx.nodes G) → NoDup com → com ⊆ nx.nodes G →
  nx.number_of_nodes (nx.subgraph G com) = Z.of_nat (length com).
Proof.
  intros HG Hcom Hsub. unfold nx.number_of_nodes. simpl. f_equal.
  apply Permutation_length, NoDup_Permutation; [by apply NoDup_filter|done|].
  intros x. rewrite list_elem_of_filter. split; [tauto|].
  intros Hx. split; [done|]. by apply Hsub.
Qed.

Lemma sum_indicator v (ns : list node) :
  NoDup ns → v ∈ ns →
  sum_list_with (λ w, if decide (v = w) then 1 else 0) ns = 1.
Proof.
  induction 1 as [|x ns Hx Hnd IH]; intros Hin; [by apply elem_of_nil in Hin|].
  simpl. destruct (decide (v = x)) as [->|Hne].
  - assert (sum_list_with (λ w, if decide (x = w) then 1 else 0) ns = 0) as ->;
      [|done].
    clear IH Hin Hnd. induction ns as [|y ns IH]; [done|]. simpl.
    rewrite decide_False; [|intros ->; apply Hx; left].
    apply IH. intros Hin. apply Hx. by right.
  - apply elem_of_cons in Hin as [?|Hin]; [done|]. by rewrite IH.
Qed.

Lemma ends_at_cons v (e : node * node) es :
  nx.ends_at v (e :: es)
  = (if decide (e.1 = v) then 1 else 0) + (if decide (e.2 = v) then 1 else 0)
    + nx.ends_at v es.
Proof.
  unfold nx.ends_at. rewrite !filter_cons.
  destruct (decide (e.1 = v)), (decide (e.2 = v)); simpl; lia.
Qed.

(** The handshake lemma: the edge ends counted over the nodes are twice the
    edges. *)
Lemma handshake (ns : list node) es :
  NoDup ns → Forall (λ e, e.1 ∈ ns ∧ e.2 ∈ ns) es →
  sum_list_with (λ v, nx.ends_at v es) ns = 2 * length es.
Proof.
  intros Hnd. induction 1 as [|e es [H1 H2] Hes IH].
  - simpl. induction ns as [|v ns IHns]; [done|]. simpl.
    apply NoDup_cons in Hnd as [_ Hnd]. by rewrite IHns.
  - transitivity
      (sum_list_with (λ w, if decide (e.1 = w) then 1 else 0) ns
       + sum_list_with (λ w, if decide (e.2 = w) then 1 else 0) ns
       + sum_list_with (λ v, nx.ends_at v es) ns).
    + clear. induction ns as [|v ns IHns]; [done|]. simpl.
      rewrite IHns, ends_at_cons. lia.
    + rewrite !sum_indicator, IH by done. simpl. lia.
Qed.

(** The degrees of a well-formed graph add up to twice its edges. *)
Lemma degree_sum_edges G :
  nx.well_formed G →
  fold_left (λ dc v, (dc + nx.degree G v)%Z) (nx.nodes G) 0%Z
  = (2 * nx.number_of_edges G)%Z.
Proof.
  intros [Hnd Hes].
  assert (∀ (ns : list node) a,
    fold_left (λ dc v, (dc + nx.degree G v)%Z) ns a
    = (a + Z.of_nat (sum_list_with (λ v, nx.ends_at v (nx.edges G)) ns))%Z)
    as Hfold.
  { induction ns as [|v ns IH]; intros a; simpl; [lia|].
    rewrite IH. unfold nx.degree. lia. }
  rewrite Hfold, handshake by done. unfold nx.number_of_edges. lia.
Qed.

(** In a graph without self-loops an edge needs two nodes. *)
Lemma edgeless_of_few_nodes G :
  nx.well_formed G → nx.loop_free G →
  (nx.number_of_nodes G <= 1)%Z → nx.number_of_edges G = 0%Z.
Proof.
  intros [_ Hes] Hloop Hn. unfold nx.number_of_nodes in Hn.
  unfold nx.loop_free in Hloop. unfold nx.number_of_edges.
  destruct (nx.edges G) as [|[u w] es]; [done|]. exfalso.
  apply Forall_cons in Hes as [[Hu Hw] _].
  apply Forall_cons in Hloop as [Hne _]. simpl in *.
  destruct (nx.nodes G) as [|x [|y ns]]; simpl in Hn; [| |lia].
  - by apply elem_of_nil in Hu.
  - apply list_elem_of_singleton in Hu, Hw. congruence.
Qed.
End graphs.

(** ** binary64: the quotient of two ints *)

Section binary64.
Local Open Scope Z_scope.

(** The number of bits of a positive integer. *)
Lemma digits2_pos_size (p : positive) : digits2_pos p = Pos.size p.
Proof. induction p; simpl; congruence. Qed.

(** A shift to the left by [k] adds [k] bits. *)
Lemma digits2_pos_iter_xO (p k : positive) :
  Zpos (digits2_pos (Pos.iter xO p k)) = Zpos (digits2_pos p) + Zpos k.
Proof.
  induction k using Pos.peano_ind.
  - simpl. lia.
  - rewrite Pos.iter_succ. simpl. lia.
Qed.

Lemma mantissa53_digits (p : positive) :
  Zpos (digits2_pos p) <= 53 → Zpos (digits2_pos (mantissa53 p)) = 53.
Proof.
  intros Hd. unfold mantissa53, shl_align.
  destruct (Zpos (digits2_pos p) - 53 - 0) as [|k|k] eqn:Hk; simpl; try lia.
  rewrite digits2_pos_iter_xO. lia.
Qed.

(** An integer of at most 53 bits is an exact float: its mantissa shifted to
    53 bits, with the exponent that undoes the shift. *)
Lemma binary_normalize_pos (p : positive) :
  Zpos (digits2_pos p) <= 53 →
  binary_normalize prec emax (Zpos p) 0 false
  = S754_finite false (mantissa53 p) (Zpos (digits2_pos p) - 53).
Proof.
  intros Hd. pose proof (mantissa53_digits p Hd) as Hm.
  unfold binary_normalize, binary_round.
  assert (fexp prec emax (Zpos (digits2_pos p) + 0)
          = Zpos (digits2_pos p) - 53) as ->.
  { unfold fexp, emin, prec, emax. lia. }
  unfold mantissa53 in *.
  destruct (shl_align p 0 (Zpos (digits2_pos p) - 53)) as [mz ez] eqn:Hsh.
  assert (ez = Zpos (digits2_pos p) - 53) as ->.
  { unfold shl_align in Hsh.
    destruct (Zpos (digits2_pos p) - 53 - 0) eqn:Hk; injection Hsh; lia. }
  simpl in Hm.
  unfold binary_round_aux, shr_fexp. simpl Zdigits2. rewrite Hm.
  set (e := Zpos (digits2_pos p) - 53) in *.
  assert (fexp prec emax (53 + e) - e = 0) as ->.
  { unfold fexp, emin, prec, emax. lia. }
  simpl. rewrite Hm.
  assert (fexp prec emax (53 + e) - e = 0) as ->.
  { unfold fexp, emin, prec, emax. lia. }
  simpl.
  assert ((e <=? emax - prec) = true) as ->; [|done].
  apply Z.leb_le. unfold prec, emax. lia.
Qed.

(** Doubling an integer keeps its mantissa and raises its exponent by one. *)
Lemma mantissa53_double (p : positive) :
  Zpos (digits2_pos p) <= 52 → mantissa53 (p~0) = mantissa53 p.
Proof.
  intros Hd. unfold mantissa53, shl_align. simpl digits2_pos.
  destruct (Zpos (digits2_pos p) - 53 - 0) as [|k|k] eqn:Hk; try lia.
  destruct (Zpos (Pos.succ (digits2_pos p)) - 53 - 0) as [|k'|k'] eqn:Hk';
    try lia; simpl.
  - assert (k = 1%positive) as -> by lia. done.
  - assert (k = Pos.succ k') as -> by lia.
    by rewrite Pos.iter_succ, Pos.iter_swap.
Qed.

Lemma valid_mantissa53 (s : bool) (p : positive) :
  Zpos (digits2_pos p) <= 53 →
  valid_binary (S754_finite s (mantissa53 p) (Zpos (digits2_pos p) - 53)) = true.
Proof.
  intros Hd. pose proof (mantissa53_digits p Hd) as Hm.
  unfold valid_binary, bounded, canonical_mantissa. rewrite Hm.
  apply andb_true_intro. split.
  - apply Z.eqb_eq. unfold FloatOps.prec, FloatOps.emax, fexp, emin. lia.
  - apply Z.leb_le. unfold FloatOps.prec, FloatOps.emax. lia.
Qed.

(** The quotient depends on the difference of the exponents only. *)
Lemma SFdiv_shift (s1 s2 : bool) (m1 m2 : positive) (e1 e2 : Z) :
  SF64div (S754_finite s1 m1 (e1 + 1)) (S754_finite s2 m2 (e2 + 1))
  = SF64div (S754_finite s1 m1 e1) (S754_finite s2 m2 e2).
Proof.
  unfold SF64div, SFdiv, SFdiv_core_binary.
  replace (Zdigits2 (Zpos m1) + (e1 + 1) - (Zdigits2 (Zpos m2) + (e2 + 1)))
    with (Zdigits2 (Zpos m1) + e1 - (Zdigits2 (Zpos m2) + e2)) by lia.
  replace (e1 + 1 - (e2 + 1)) with (e1 - e2) by lia. done.
Qed.

Lemma Prim2SF_float_of_int_pos (p : positive) :
  Zpos (digits2_pos p) <= 53 →
  Prim2SF (float_of_int (Zpos p))
  = S754_finite false (mantissa53 p) (Zpos (digits2_pos p) - 53).
Proof.
  intros Hd. unfold float_of_int. rewrite binary_normalize_pos by done.
  by apply Prim2SF_SF2Prim, valid_mantissa53.
Qed.

(** An integer below 2^k has at most k bits. *)
Lemma digits2_pos_bound (p : positive) (k : Z) :
  0 <= k → Zpos p < 2 ^ k → Zpos (digits2_pos p) <= k.
Proof.
  intros Hk Hp. rewrite digits2_pos_size.
  pose proof (Pos.size_le p) as Hle.
  destruct (Z.le_gt_cases (Zpos (Pos.size p)) k) as [?|Hgt]; [done|]. exfalso.
  assert (2 ^ (k + 1) <= 2 ^ Zpos (Pos.size p)) as Hpow
    by (apply Z.pow_le_mono_r; lia).
  rewrite Z.pow_add_r in Hpow by lia.
  assert (2 ^ Zpos (Pos.size p) <= Zpos p~0) as Hle'.
  { rewrite <- Pos2Z.inj_pow. apply Pos2Z.pos_le_pos. exact Hle. }
  lia.
Qed.

(** Doubling both ints leaves their binary64 quotient unchanged. *)
Lemma float_div_double (a b : Z) :
  0 <= a < 2 ^ 52 → 0 < b < 2 ^ 52 →
  PrimFloat.div (float_of_int (2 * a)) (float_of_int (2 * b))
  = PrimFloat.div (float_of_int a) (float_of_int b).
Proof.
  intros Ha Hb. apply Prim2SF_inj. rewrite !div_spec.
  destruct b as [|q|q]; try lia.
  assert (Zpos (digits2_pos q) <= 52) as Hq by (apply digits2_pos_bound; lia).
  change (2 * Zpos q) with (Zpos q~0).
  rewrite (Prim2SF_float_of_int_pos q) by lia.
  rewrite (Prim2SF_float_of_int_pos q~0) by (simpl; lia).
  rewrite mantissa53_double by done.
  destruct a as [|p|p]; try lia.
  - done.
  - assert (Zpos (digits2_pos p) <= 52) as Hp by (apply digits2_pos_bound; lia).
    change (2 * Zpos p) with (Zpos p~0).
    rewrite (Prim2SF_float_of_int_pos p) by lia.
    rewrite (Prim2SF_float_of_int_pos p~0) by (simpl; lia).
    rewrite mantissa53_double by done.
    simpl digits2_pos.
    replace (Zpos (Pos.succ (digits2_pos p)) - 53)
      with (Zpos (digits2_pos p) - 53 + 1) by lia.
    replace (Zpos (Pos.succ (digits2_pos q)) - 53)
      with (Zpos (digits2_pos q) - 53 + 1) by lia.
    apply SFdiv_shift.
Qed.
End binary64.

(** ** Scores of the whole partition, in any arithmetic *)

Section global_scores.
Context {node : Type} `{Countable node}.
Context {F : Type} `{Arith F}.

Abbreviation Graph := (nx.Graph node).
Abbreviation Communities := (list (list node)).

(** C3.  With [summary=False], [size] returns the list of the sizes of the
    communities, the communities being sets of nodes of the graph. *)
Theorem size_values `{!pq.PartitionQuality node F}
    (graph : Graph) (communities : Communities) :
  nx.well_formed graph →
  node_subsets graph communities →
  size graph communities (Some false)
  = Ok (Values (map (λ com, Int (Z.of_nat (length com))) communities)).
Proof.
  intros [Hnd _] Hsub. unfold size. rewrite quality_indexes_values.
  do 2 f_equal. unfold scores. apply Forall_fmap_ext_1.
  eapply Forall_impl; [exact Hsub|]. intros com [Hcom Hin]. simpl.
  by rewrite subgraph_number_of_nodes.
Qed.

(** The inner loop of [newman_girvan_modularity] assigns [cid] to the nodes
    of the community and leaves the others as they were. *)
Lemma assign_community (cid : nat) (com : list node) (partition : gmap node nat)
    (v : node) :
  fold_left (λ partition node, <[node := cid]> partition) com partition !! v
  = if decide (v ∈ com) then Some cid else partition !! v.
Proof.
  revert partition. induction com as [|x com IH]; intros partition.
  - case_decide as Hin; [by apply elem_of_nil in Hin|done].
  - cbn [fold_left]. rewrite IH. destruct (decide (v ∈ com)) as [Hin|Hnin].
    + rewrite decide_True; [done|]. by right.
    + destruct (decide (v = x)) as [->|Hne].
      * rewrite decide_True by left. by rewrite lookup_insert_eq.
      * rewrite decide_False by (by intros [?|?]%elem_of_cons).
        by rewrite lookup_insert_ne.
Qed.

Lemma assign_from_cons (k : nat) (c : list node) (l : Communities)
    (partition : gmap node nat) :
  assign_from k (c :: l) partition
  = assign_from (S k) l
      (fold_left (λ partition node, <[node := k]> partition) c partition).
Proof. done. Qed.

Lemma assign_from_absent (k : nat) (communities : Communities)
    (partition : gmap node nat) (v : node) :
  (∀ j com, communities !! j = Some com → v ∉ com) →
  assign_from k communities partition !! v = partition !! v.
Proof.
  revert k partition.
  induction communities as [|c l IH]; intros k partition Hout; [done|].
  rewrite assign_from_cons.
  rewrite IH; [|intros j com Hj; by apply (Hout (S j))].
  rewrite assign_community, decide_False; [done|]. by apply (Hout 0).
Qed.

Lemma assign_from_last (k : nat) (communities : Communities)
    (partition : gmap node nat) (v : node) (i : nat) (com : list node) :
  communities !! i = Some com → v ∈ com →
  (∀ j com', communities !! j = Some com' → v ∈ com' → j ≤ i) →
  assign_from k communities partition !! v = Some (k + i).
Proof.
  revert k partition i.
  induction communities as [|c l IH]; intros k partition i Hi Hv Hlast;
    [done|].
  rewrite assign_from_cons.
  destruct i as [|i].
  - injection Hi as ->. rewrite assign_from_absent.
    + rewrite assign_community, decide_True by done. f_equal. lia.
    + intros j com' Hj Hin. specialize (Hlast (S j) com' Hj Hin). lia.
  - rewrite (IH _ _ i); [f_equal; lia|done|done|].
    intros j com' Hj Hin. specialize (Hlast (S j) com' Hj Hin). lia.
Qed.

(** C9.  A node that belongs to several communities is assigned the index
    of the last community that contains it. *)
Theorem assignment_last_community (communities : Communities) (v : node)
    (i : nat) (com : list node) :
  communities !! i = Some com → v ∈ com →
  (∀ j com', communities !! j = Some com' → v ∈ com' → j ≤ i) →
  assignment communities !! v = Some i.
Proof.
  intros Hi Hv Hlast.
  change (assignment communities) with (assign_from 0 communities ∅).
  by rewrite (assign_from_last 0 communities ∅ v i com).
Qed.
Lemma fold_left_add_map {A : Type} (t : A → F) (l : list A) (a : F) :
  fold_left (λ q x, add q (t x)) l a = fold_left add (map t l) a.
Proof. revert a. induction l as [|x l IH]; intros a; simpl; [done|apply IH]. Qed.

(** [erdos_renyi_modularity] by cases: the first community raises when
    n·(n−1) is zero, the final division raises when m is zero. *)
Lemma erdos_renyi_modularity_cases (graph : Graph) (communities : Communities) :
  let m := nx.number_of_edges graph in
  let n := nx.number_of_nodes graph in
  erdos_renyi_modularity graph communities
  = if existsb (λ _, (n * (n - 1) =? 0)%Z) communities
    then Raise ZeroDivisionError
    else if (m =? 0)%Z then Raise ZeroDivisionError
    else Ok (mul (div (of_int 1) (of_int m))
                 (np.sum (map (erdos_renyi_term graph) communities))).
Proof.
  intros m n. unfold erdos_renyi_modularity.
  rewrite (for_loop_guard (λ _, (n * (n - 1) =? 0)%Z) ZeroDivisionError
             (λ q community, add q (erdos_renyi_term graph community))).
  - destruct (existsb _ communities); [done|]. simpl.
    unfold truediv. fold m. destruct (m =? 0)%Z; [done|]. simpl.
    by rewrite fold_left_add_map.
  - intros q community. unfold truediv. fold n.
    by destruct (n * (n - 1) =? 0)%Z.
Qed.

(** [modularity_density] by cases: it raises when the subgraph of some
    community has no node. *)
Lemma modularity_density_cases (graph : Graph) (communities : Communities) :
  modularity_density graph communities
  = if existsb (λ community,
                  (nx.number_of_nodes (nx.subgraph graph community) =? 0)%Z)
               communities
    then Raise ZeroDivisionError
    else Ok (np.sum (map (modularity_density_term graph) communities)).
Proof.
  unfold modularity_density.
  rewrite (for_loop_guard
    (λ community, (nx.number_of_nodes (nx.subgraph graph community) =? 0)%Z)
    ZeroDivisionError
    (λ q community, add q (modularity_density_term graph community))).
  - destruct (existsb _ communities); [done|].
    by rewrite fold_left_add_map.
  - intros q community. unfold truediv.
    by destruct (nx.number_of_nodes (nx.subgraph graph community) =? 0)%Z.
Qed.

(** C2.  On a graph with edges and at least two nodes
    [erdos_renyi_modularity] returns (1/m) Σ_c [mc − m·nc·(nc−1)/(n·(n−1))];
    on a graph with at most one node or without edges it raises
    [ZeroDivisionError]. *)
Theorem erdos_renyi_modularity_spec (graph : Graph) (communities : Communities) :
  nx.well_formed graph → nx.loop_free graph →
  ((0 < nx.number_of_edges graph)%Z ∧ (1 < nx.number_of_nodes graph)%Z →
     erdos_renyi_modularity graph communities
     = Ok (erdos_renyi_formula graph communities))
  ∧ ((nx.number_of_nodes graph <= 1)%Z ∨ nx.number_of_edges graph = 0%Z →
     erdos_renyi_modularity graph communities = Raise ZeroDivisionError).
Proof.
  intros Hwf Hloop. rewrite erdos_renyi_modularity_cases. split.
  - intros [Hm Hn].
    assert (existsb (λ _, (nx.number_of_nodes graph
                           * (nx.number_of_nodes graph - 1) =? 0)%Z)
                    communities = false) as ->.
    { induction communities as [|c l IH]; [done|]. simpl. rewrite IH.
      rewrite orb_false_r. apply Z.eqb_neq. nia. }
    by rewrite (proj2 (Z.eqb_neq _ 0)) by lia.
  - intros Hzero.
    assert (nx.number_of_edges graph = 0%Z) as ->.
    { destruct Hzero as [Hn|Hm]; [|done]. by apply edgeless_of_few_nodes. }
    simpl. by destruct (existsb _ communities).
Qed.

(** C5.  On a graph without edges [surprise] and [significance] raise
    [ZeroDivisionError]. *)
Theorem surprise_significance_no_edges `{!Logs F}
    (graph : Graph) (communities : Communities) :
  nx.number_of_edges graph = 0%Z →
  surprise graph communities = Raise ZeroDivisionError
  ∧ significance graph communities = Raise ZeroDivisionError.
Proof.
  intros Hm. split.
  - unfold surprise. destruct (fold_left _ communities _) as [q qa].
    by rewrite Hm.
  - unfold significance. by rewrite Hm.
Qed.
End global_scores.

(** ** binary64: the sign of a standard deviation *)

Section binary64_sign.
Local Open Scope Z_scope.

Lemma shr_1_nonneg (mrs : shr_record) :
  0 <= shr_m mrs → 0 <= shr_m (shr_1 mrs).
Proof. destruct mrs as [[|[p|p|]|p] r s]; simpl; lia. Qed.

Lemma iter_pos_shr_1_nonneg (p : positive) (mrs : shr_record) :
  0 <= shr_m mrs → 0 <= shr_m (SpecFloat.iter_pos shr_1 p mrs).
Proof.
  revert mrs. induction p as [p IH|p IH|]; intros mrs Hm; simpl.
  - apply IH, IH. by apply shr_1_nonneg.
  - by apply IH, IH.
  - by apply shr_1_nonneg.
Qed.

Lemma shr_fexp_nonneg (m e : Z) (l : location) :
  0 <= m → 0 <= shr_m (fst (shr_fexp prec emax m e l)).
Proof.
  intros Hm. unfold shr_fexp, shr.
  assert (0 <= shr_m (shr_record_of_loc m l)) as Hrec
    by (by destruct l as [|[]]).
  destruct (fexp prec emax (Zdigits2 m + e) - e); simpl; [done| |done].
  by apply iter_pos_shr_1_nonneg.
Qed.

(** Rounding a non-negative mantissa gives a number of the given sign. *)
Lemma binary_round_aux_signed (sx : bool) (m e : Z) (l : location) :
  0 <= m → sf_signed sx (binary_round_aux prec emax sx m e l).
Proof.
  intros Hm. unfold binary_round_aux.
  pose proof (shr_fexp_nonneg m e l Hm) as H1.
  destruct (shr_fexp prec emax m e l) as [mrs' e']. simpl in H1.
  assert (0 <= round_nearest_even (shr_m mrs') (loc_of_shr_record mrs'))
    as H2.
  { unfold round_nearest_even.
    destruct (loc_of_shr_record mrs') as [|[]]; try lia.
    destruct (Z.even (shr_m mrs')); lia. }
  pose proof (shr_fexp_nonneg _ e' loc_Exact H2) as H3.
  destruct (shr_fexp prec emax _ e' loc_Exact) as [mrs'' e'']. simpl in H3.
  destruct (shr_m mrs'') as [|p|p]; simpl; [done| |lia].
  by destruct (e'' <=? emax - prec).
Qed.
End binary64_sign.

Section binary64_operations.
Local Open Scope Z_scope.

Lemma sf_signed_number (s : bool) (x : spec_float) :
  sf_signed s x → sf_number x.
Proof. by destruct x. Qed.

Lemma sf_signed_nonneg (x : spec_float) : sf_signed false x → sf_nonneg x.
Proof. destruct x as [s|s| |s m e]; simpl; try done; by intros ->. Qed.

Lemma sf_nonneg_number (x : spec_float) : sf_nonneg x → sf_number x.
Proof. by destruct x. Qed.

Lemma sf_finite_number (x : spec_float) : sf_finite x → sf_number x.
Proof. by destruct x. Qed.

Lemma binary_normalize_number (m e : Z) :
  sf_number (binary_normalize prec emax m e false).
Proof.
  destruct m as [|p|p]; simpl; [done| |]; unfold binary_round;
    destruct (shl_align _ _ _) as [mz ez];
    eapply sf_signed_number, binary_round_aux_signed; lia.
Qed.

Lemma binary_normalize_nonneg (m e : Z) :
  0 <= m → sf_nonneg (binary_normalize prec emax m e false).
Proof.
  intros Hm. destruct m as [|p|p]; simpl; [done| |lia]. unfold binary_round.
  destruct (shl_align _ _ _) as [mz ez].
  apply sf_signed_nonneg, binary_round_aux_signed. lia.
Qed.

(** A sum with a finite term is a number when the other term is. *)
Lemma SFadd_number (x y : spec_float) :
  sf_number x → sf_finite y → sf_number (SF64add x y).
Proof.
  destruct x as [sx|sx| |sx mx ex], y as [sy|sy| |sy my ey]; simpl;
    try done; try (by destruct sx, sy).
  intros _ _. apply binary_normalize_number.
Qed.

(** A sum of non-negative terms is non-negative. *)
Lemma SFadd_nonneg (x y : spec_float) :
  sf_nonneg x → sf_nonneg y → sf_nonneg (SF64add x y).
Proof.
  destruct x as [sx|[]| |[] mx ex], y as [sy|[]| |[] my ey]; simpl;
    try done; try (by destruct sx, sy).
  intros _ _.
  apply (binary_normalize_nonneg
           (Zpos ((shl_align mx ex (Z.min ex ey)).1
                  + (shl_align my ey (Z.min ex ey)).1))
           (Z.min ex ey)).
  lia.
Qed.

(** The difference of a finite number and a number is a number. *)
Lemma SFsub_number (x y : spec_float) :
  sf_finite x → sf_number y → sf_number (SF64sub x y).
Proof.
  destruct x as [sx|sx| |sx mx ex], y as [sy|sy| |sy my ey]; simpl;
    try done; try (by destruct sx, sy).
  intros _ _. apply binary_normalize_number.
Qed.

(** The square of a number is non-negative. *)
Lemma SFmul_square (x : spec_float) :
  sf_number x → sf_nonneg (SF64mul x x).
Proof.
  destruct x as [sx|sx| |sx mx ex]; simpl; try done;
    try (by destruct sx).
  intros _. apply sf_signed_nonneg.
  replace (xorb sx sx) with false by (by destruct sx).
  apply binary_round_aux_signed. lia.
Qed.

Lemma SFdiv_core_nonneg (m1 m2 : positive) (e1 e2 : Z) :
  0 <= (SFdiv_core_binary prec emax (Zpos m1) e1 (Zpos m2) e2).1.1.
Proof.
  unfold SFdiv_core_binary.
  set (s := e1 - e2 - _).
  set (m' := match s with Zpos _ => _ | Z0 => _ | Zneg _ => _ end).
  assert (0 <= m') as Hm'.
  { unfold m'. destruct s; [lia| |lia]. apply Z.shiftl_nonneg. lia. }
  pose proof (Z.div_eucl_eq m' (Zpos m2) ltac:(lia)) as Heq.
  pose proof (Z.mod_pos_bound m' (Zpos m2) ltac:(lia)) as Hb.
  unfold Z.modulo in Hb.
  change IntDef.Z.div_eucl with Z.div_eucl.
  destruct (Z.div_eucl m' (Zpos m2)) as [q r]. simpl. nia.
Qed.

(** A number divided by a positive finite number is a number, and
    non-negative when the dividend is. *)
Lemma SFdiv_positive (x : spec_float) (m : positive) (e : Z) :
  (sf_number x → sf_number (SF64div x (S754_finite false m e)))
  ∧ (sf_nonneg x → sf_nonneg (SF64div x (S754_finite false m e))).
Proof.
  destruct x as [sx|sx| |sx mx ex]; simpl; try done;
    try (by destruct sx).
  pose proof (SFdiv_core_nonneg mx m ex e) as Hq.
  destruct (SFdiv_core_binary _ _ _ _ _ _) as [[mz ez] lz]. simpl in Hq.
  split; intros Hx.
  - eapply sf_signed_number. by apply binary_round_aux_signed.
  - destruct sx; [done|]. apply sf_signed_nonneg.
    by apply binary_round_aux_signed.
Qed.

(** The square root of a non-negative number is non-negative. *)
Lemma SFsqrt_nonneg (x : spec_float) :
  sf_nonneg x → sf_nonneg (SF64sqrt x).
Proof.
  destruct x as [sx|[]| |[] mx ex]; simpl; try done. intros _.
  unfold SFsqrt_core_binary.
  set (m' := match _ with Zpos _ => _ | Z0 => _ | Zneg _ => _ end).
  pose proof (Z.sqrtrem_spec m') as Hs.
  change IntDef.Z.sqrtrem with Z.sqrtrem.
  destruct (Z.sqrtrem m') as [q r].
  apply sf_signed_nonneg, binary_round_aux_signed.
  assert (0 <= m') as Hm'.
  { unfold m'. destruct (ex - 2 * _); [lia| |lia]. apply Z.shiftl_nonneg. lia. }
  specialize (Hs Hm'). simpl in Hs. nia.
Qed.

(** Zero is at most every non-negative number. *)
Lemma SFleb_zero_nonneg (x : spec_float) :
  sf_nonneg x → SFleb (S754_zero false) x = true.
Proof. by destruct x as [sx|[]| |[] mx ex]. Qed.
End binary64_operations.

Section binary64_std.
Local Open Scope Z_scope.

(** A finite float is a zero or a finite number of the specification. *)
Lemma Prim2SF_is_finite (x : float) :
  PrimFloat.is_finite x = true → sf_finite (Prim2SF x).
Proof.
  unfold PrimFloat.is_finite, Prim2SF.
  destruct (is_nan x), (PrimFloat.is_zero x), (is_infinity x); simpl;
    try done.
  intros _. destruct (FloatOps.Z.frexp x) as [r exp].
  destruct (shr_fexp _ _ _ _ _) as [shr e'].
  by destruct (shr_m shr).
Qed.

(** The sum of finite floats is a number: it can overflow, but not to NaN. *)
Lemma sum_number (xs : list float) (a : float) :
  sf_number (Prim2SF a) →
  Forall (λ x, PrimFloat.is_finite x = true) xs →
  sf_number (Prim2SF (fold_left PrimFloat.add xs a)).
Proof.
  intros Ha Hxs. revert a Ha.
  induction Hxs as [|x xs Hx _ IH]; intros a Ha; [done|].
  cbn [fold_left]. apply IH. rewrite add_spec.
  by apply SFadd_number, Prim2SF_is_finite.
Qed.

Lemma sum_nonneg (xs : list float) (a : float) :
  sf_nonneg (Prim2SF a) →
  Forall (λ x, sf_nonneg (Prim2SF x)) xs →
  sf_nonneg (Prim2SF (fold_left PrimFloat.add xs a)).
Proof.
  intros Ha Hxs. revert a Ha.
  induction Hxs as [|x xs Hx _ IH]; intros a Ha; [done|].
  cbn [fold_left]. apply IH. rewrite add_spec. by apply SFadd_nonneg.
Qed.

(** The length of a list of fewer than 2^53 items is a positive float. *)
Lemma Prim2SF_length {A : Type} (xs : list A) :
  xs ≠ [] → Z.of_nat (length xs) < 2 ^ 53 →
  ∃ m e, Prim2SF (float_of_int (Z.of_nat (length xs)))
         = S754_finite false m e.
Proof.
  intros Hne Hlt.
  destruct (Z.of_nat (length xs)) as [|p|p] eqn:Hp;
    [by destruct xs|..|lia].
  eexists _, _. apply Prim2SF_float_of_int_pos.
  apply digits2_pos_bound; lia.
Qed.

(** In binary64 the mean of finite values is a number, and not negative
    when they are not. *)
Lemma mean_number (values : list float) :
  values ≠ [] → Z.of_nat (length values) < 2 ^ 53 →
  Forall (λ x, PrimFloat.is_finite x = true) values →
  sf_number (Prim2SF (np.mean values)).
Proof.
  intros Hne Hlt Hfin. destruct (Prim2SF_length values Hne Hlt) as (m & e & Hn).
  unfold np.mean, np.sum. simpl. rewrite div_spec, Hn.
  apply SFdiv_positive, sum_number; done.
Qed.

Lemma mean_nonneg (values : list float) :
  values ≠ [] → Z.of_nat (length values) < 2 ^ 53 →
  Forall (λ x, sf_nonneg (Prim2SF x)) values →
  sf_nonneg (Prim2SF (np.mean values)).
Proof.
  intros Hne Hlt Hfin. destruct (Prim2SF_length values Hne Hlt) as (m & e & Hn).
  unfold np.mean, np.sum. simpl. rewrite div_spec, Hn.
  apply SFdiv_positive, sum_nonneg; done.
Qed.

(** In binary64 the standard deviation of finite values is not negative:
    the squares are not, and neither rounding nor overflow changes the sign
    of their sum, of its quotient by the length or of the square root. *)
Lemma std_nonneg (values : list float) :
  values ≠ [] → Z.of_nat (length values) < 2 ^ 53 →
  Forall (λ x, PrimFloat.is_finite x = true) values →
  PrimFloat.leb 0 (np.std values) = true.
Proof.
  intros Hne Hlt Hfin. pose proof (mean_number values Hne Hlt Hfin) as Hmu.
  rewrite leb_spec. apply SFleb_zero_nonneg.
  unfold np.std. simpl. rewrite sqrt_spec. apply SFsqrt_nonneg.
  apply mean_nonneg.
  - by destruct values.
  - by rewrite length_map.
  - apply Forall_fmap. eapply Forall_impl; [exact Hfin|].
    intros x Hx. simpl. rewrite mul_spec, sub_spec.
    by apply SFmul_square, SFsub_number; [apply Prim2SF_is_finite|].
Qed.
End binary64_std.

(** ** Scores of the whole partition, in exact arithmetic and in binary64 *)

Section arithmetics.
Context {node : Type} `{Countable node}.

Abbreviation Graph := (nx.Graph node).
Abbreviation Communities := (list (list node)).

Lemma fold_left_pair {A B C : Type} (f : B → A → B) (g : C → A → C)
    (l : list A) (b : B) (c : C) :
  fold_left (λ '(b, c) x, (f b x, g c x)) l (b, c)
  = (fold_left f l b, fold_left g l c).
Proof. revert b c. induction l as [|x l IH]; intros b c; simpl; [done|apply IH]. Qed.

Lemma degree_total_twice_edges (graph : Graph) (community : list node) :
  nx.well_formed graph →
  degree_total graph community
  = (2 * nx.number_of_edges (nx.subgraph graph community))%Z.
Proof.
  intros [Hnd _]. apply degree_sum_edges. by apply subgraph_well_formed.
Qed.

(** [z_modularity] is the simplified expression in any arithmetic in which
    doubling both ints leaves the quotients mc/m unchanged. *)
Lemma z_modularity_simplifies_if {F : Type} `{Arith F}
    (graph : Graph) (communities : Communities) :
  nx.well_formed graph →
  (0 < nx.number_of_edges graph)%Z →
  (∀ community,
     let mc := nx.number_of_edges (nx.subgraph graph community) in
     div (of_int (2 * mc)) (of_int (2 * nx.number_of_edges graph))
     = div (of_int mc) (of_int (nx.number_of_edges graph))) →
  z_modularity graph communities
  = Ok (z_modularity_simplified graph communities).
Proof.
  intros Hwf Hm Hdiv.
  set (m := nx.number_of_edges graph) in *.
  set (ratio := λ community : list node,
         div (of_int (nx.number_of_edges (nx.subgraph graph community)))
             (of_int m)).
  unfold z_modularity.
  rewrite (for_loop_fold
    (λ '(mmc, dc2m) community,
       (add mmc (ratio community),
        add dc2m (mul (ratio community) (ratio community))))).
  - rewrite (fold_left_pair (λ mmc c, add mmc (ratio c))
               (λ dc2m c, add dc2m (mul (ratio c) (ratio c)))).
    unfold z_modularity_simplified, np.sum.
    rewrite <- !fold_left_add_map. reflexivity.
  - intros [mmc dc2m] community. fold (degree_total graph community).
    rewrite degree_total_twice_edges by done.
    unfold truediv. fold m.
    rewrite !(proj2 (Z.eqb_neq _ 0)) by lia. simpl.
    by rewrite Hdiv.
Qed.

Lemma subgraph_number_of_edges_le (graph : Graph) (community : list node) :
  (0 <= nx.number_of_edges (nx.subgraph graph community)
   <= nx.number_of_edges graph)%Z.
Proof.
  unfold nx.number_of_edges. simpl.
  pose proof (length_filter
    (λ e : node * node,
       e.1 ∈ filter (λ v, v ∈ community) (nx.nodes graph)
       ∧ e.2 ∈ filter (λ v, v ∈ community) (nx.nodes graph))
    (nx.edges graph)).
  lia.
Qed.

(** C10.  The degree sum of a community is twice its number of edges, and
    so, on a graph with edges, [z_modularity] is the simplified expression
    in the ratios mc/m: in exact arithmetic, and in binary64 for a graph of
    fewer than 2^52 edges, whose counts are exact floats. *)
Theorem z_modularity_simplifies (graph : Graph) (communities : Communities) :
  nx.well_formed graph →
  (0 < nx.number_of_edges graph)%Z →
  (∀ community,
     degree_total graph community
     = (2 * nx.number_of_edges (nx.subgraph graph community))%Z)
  ∧ z_modularity (F := R) graph communities
    = Ok (z_modularity_simplified graph communities)
  ∧ ((nx.number_of_edges graph < 2 ^ 52)%Z →
     z_modularity (F := float) graph communities
     = Ok (z_modularity_simplified graph communities)).
Proof.
  intros Hwf Hm. split_and!.
  - intros c. by apply degree_total_twice_edges.
  - apply z_modularity_simplifies_if; [done..|]. intros community mc. simpl.
    assert (IZR (nx.number_of_edges graph) ≠ 0%R) by (apply not_0_IZR; lia).
    rewrite !mult_IZR. by field.
  - intros Hbound. apply z_modularity_simplifies_if; [done..|].
    intros community mc. simpl.
    pose proof (subgraph_number_of_edges_le graph community).
    apply float_div_double; lia.
Qed.
Lemma existsb_Permutation {A : Type} (f : A → bool) (l l' : list A) :
  l ≡ₚ l' → existsb f l = existsb f l'.
Proof.
  induction 1 as [|x l l' _ IH|x y l|l l' l'' _ IH1 _ IH2]; simpl.
  - done.
  - by rewrite IH.
  - by destruct (f x), (f y).
  - by rewrite IH1.
Qed.

(** Over the reals the sum of a list does not depend on its order. *)
Lemma sum_Permutation (l l' : list R) (a : R) :
  l ≡ₚ l' → fold_left Rplus l a = fold_left Rplus l' a.
Proof.
  intros Hp. revert a.
  induction Hp as [|x l l' _ IH|x y l|l l' l'' _ IH1 _ IH2]; intros a; simpl.
  - done.
  - apply IH.
  - f_equal. lra.
  - by rewrite IH1.
Qed.

Lemma np_sum_Permutation {A : Type} (t : A → R) (l l' : list A) :
  l ≡ₚ l' → np.sum (map t l) = np.sum (map t l').
Proof. intros Hp. apply sum_Permutation. by apply Permutation_map. Qed.

(** C7, in exact arithmetic.  [erdos_renyi_modularity] and
    [modularity_density] return the same result, value or exception, on two
    partitions that list the same communities in different orders. *)
Theorem modularity_order_invariant (graph : Graph)
    (communities communities' : Communities) :
  communities ≡ₚ communities' →
  erdos_renyi_modularity (F := R) graph communities
  = erdos_renyi_modularity (F := R) graph communities'
  ∧ modularity_density (F := R) graph communities
    = modularity_density (F := R) graph communities'.
Proof.
  intros Hp. split.
  - rewrite !erdos_renyi_modularity_cases.
    rewrite (existsb_Permutation _ _ _ Hp).
    by rewrite (np_sum_Permutation _ _ _ Hp).
  - rewrite !modularity_density_cases.
    rewrite (existsb_Permutation _ _ _ Hp).
    by rewrite (np_sum_Permutation _ _ _ Hp).
Qed.
(** Over the reals [a < b] on numbers is the order of their values. *)
Lemma lt_true (a b : number R) :
  lt a b = true ↔ (to_float a < to_float b)%R.
Proof.
  destruct a as [x|x], b as [y|y]; simpl.
  - rewrite Z.ltb_lt. split; [apply IZR_lt|apply lt_IZR].
  - by destruct (Rlt_dec _ _).
  - by destruct (Rlt_dec _ _).
  - by destruct (Rlt_dec _ _).
Qed.

Lemma min_fold_bound (rest : list (number R)) (first : number R) :
  let mn := fold_left (λ min_item item, if lt item min_item then item else min_item)
                      rest first in
  (to_float mn <= to_float first)%R
  ∧ Forall (λ v, (to_float mn <= to_float v)%R) rest.
Proof.
  revert first. induction rest as [|x rest IH]; intros first; simpl.
  - split; [lra|constructor].
  - destruct (lt x first) eqn:Hlt.
    + apply lt_true in Hlt. destruct (IH x) as [H1 H2].
      split; [lra|]. by constructor.
    + assert (¬ (to_float x < to_float first)%R) as Hge
        by (rewrite <- lt_true; congruence).
      destruct (IH first) as [H1 H2]. split; [done|].
      constructor; [lra|done].
Qed.

Lemma max_fold_bound (rest : list (number R)) (first : number R) :
  let mx := fold_left (λ max_item item, if lt max_item item then item else max_item)
                      rest first in
  (to_float first <= to_float mx)%R
  ∧ Forall (λ v, (to_float v <= to_float mx)%R) rest.
Proof.
  revert first. induction rest as [|x rest IH]; intros first; simpl.
  - split; [lra|constructor].
  - destruct (lt first x) eqn:Hlt.
    + apply lt_true in Hlt. destruct (IH x) as [H1 H2].
      split; [lra|]. by constructor.
    + assert (¬ (to_float first < to_float x)%R) as Hge
        by (rewrite <- lt_true; congruence).
      destruct (IH first) as [H1 H2]. split; [done|].
      constructor; [lra|done].
Qed.

(** The smallest item is below every item, the largest above. *)
Lemma min_lower_bound (values : list (number R)) (mn : number R) :
  builtins.min values = Ok mn →
  Forall (λ v, (to_float mn <= to_float v)%R) values.
Proof.
  destruct values as [|first rest]; [done|]. simpl. intros [= <-].
  destruct (min_fold_bound rest first). by constructor.
Qed.

Lemma max_upper_bound (values : list (number R)) (mx : number R) :
  builtins.max values = Ok mx →
  Forall (λ v, (to_float v <= to_float mx)%R) values.
Proof.
  destruct values as [|first rest]; [done|]. simpl. intros [= <-].
  destruct (max_fold_bound rest first). by constructor.
Qed.

(** A sum of items within [lo, hi] is within the same multiples of the
    number of items. *)
Lemma sum_bounds (lo hi : R) (xs : list R) (a : R) :
  Forall (λ x, (lo <= x <= hi)%R) xs →
  (a + INR (length xs) * lo <= fold_left Rplus xs a
   <= a + INR (length xs) * hi)%R.
Proof.
  intros Hxs. revert a.
  induction Hxs as [|x xs Hx _ IH]; intros a.
  - simpl. lra.
  - cbn [fold_left]. specialize (IH (a + x)%R).
    change (length (x :: xs)) with (S (length xs)). rewrite S_INR. lra.
Qed.

(** The mean of a non-empty list lies between any bounds of its items. *)
Lemma mean_bounds (lo hi : R) (xs : list R) :
  xs ≠ [] → Forall (λ x, (lo <= x <= hi)%R) xs →
  (lo <= np.mean xs <= hi)%R.
Proof.
  intros Hne Hxs. pose proof (sum_bounds lo hi xs 0 Hxs) as Hsum.
  unfold np.mean, np.sum. simpl. rewrite <- INR_IZR_INZ.
  assert (0 < INR (length xs))%R as Hn.
  { apply lt_0_INR. destruct xs; [done|simpl; lia]. }
  set (n := INR (length xs)) in *. set (s := fold_left Rplus xs 0%R) in *.
  split.
  - apply (Rmult_le_reg_r n); [done|]. unfold Rdiv.
    rewrite Rmult_assoc, Rinv_l by lra. lra.
  - apply (Rmult_le_reg_r n); [done|]. unfold Rdiv.
    rewrite Rmult_assoc, Rinv_l by lra. lra.
Qed.

(** In exact arithmetic, on a non-empty partition the summary of every
    score has its mean between its min and its max, and a standard
    deviation that is not negative. *)
Lemma summary_bounds_exact `{!pq.PartitionQuality node R}
    (graph : Graph) (communities : Communities)
    (scoring_function : scoring_function) (summary : option bool) :
  communities ≠ [] →
  summary = None ∨ summary = Some true →
  ∃ r, quality_indexes graph communities scoring_function summary
       = Ok (Summary r)
       ∧ (to_float (min r) <= mean r <= to_float (max r))%R
       ∧ (0 <= std r)%R.
Proof.
  intros Hne Hsum.
  pose proof (scores_nonempty graph communities scoring_function Hne) as Hvs.
  rewrite quality_indexes_summary by done.
  set (values := scores graph communities scoring_function) in *. simpl.
  destruct (min_nonempty values Hvs) as [mn Hmn].
  destruct (max_nonempty values Hvs) as [mx Hmx].
  rewrite Hmn. simpl. rewrite Hmx. simpl.
  eexists. split; [done|]. simpl. split; [|apply sqrt_pos].
  apply mean_bounds; [by destruct values|].
  apply Forall_fmap, Forall_forall. intros v Hv. simpl.
  pose proof (min_lower_bound values mn Hmn) as Hlo.
  pose proof (max_upper_bound values mx Hmx) as Hhi.
  rewrite Forall_forall in Hlo, Hhi. split; [by apply Hlo|by apply Hhi].
Qed.

(** In binary64, on a non-empty partition with finite scores the summary
    has a standard deviation that is not negative. *)
Lemma summary_std_binary64 `{!pq.PartitionQuality node float}
    (graph : Graph) (communities : Communities)
    (scoring_function : scoring_function) (summary : option bool) :
  communities ≠ [] →
  summary = None ∨ summary = Some true →
  (Z.of_nat (length communities) < 2 ^ 53)%Z →
  Forall (λ v, PrimFloat.is_finite (to_float v) = true)
    (scores graph communities scoring_function) →
  ∃ r, quality_indexes graph communities scoring_function summary
       = Ok (Summary r)
       ∧ PrimFloat.leb 0 (std r) = true.
Proof.
  intros Hne Hsum Hlt Hfin.
  pose proof (scores_nonempty graph communities scoring_function Hne) as Hvs.
  rewrite quality_indexes_summary by done.
  set (values := scores graph communities scoring_function) in *. simpl.
  destruct (min_nonempty values Hvs) as [mn Hmn].
  destruct (max_nonempty values Hvs) as [mx Hmx].
  rewrite Hmn. simpl. rewrite Hmx. simpl.
  eexists. split; [done|]. simpl. apply std_nonneg.
  - by destruct values.
  - unfold values, scores. by rewrite !length_map.
  - by apply Forall_fmap.
Qed.

End arithmetics.

(** ** binary64, and the examples *)

Section examples.
#[local] Existing Instance example_scores.

(** C8.  On the ring 0-1-2-3-0 split into {0,1} and {2,3},
    [newman_girvan_modularity] returns exactly 0, in binary64 as in exact
    arithmetic. *)
Theorem newman_girvan_modularity_ring :
  newman_girvan_modularity (F := float) ring [[0; 1]; [2; 3]] = Ok 0%float
  ∧ newman_girvan_modularity (F := R) ring [[0; 1]; [2; 3]] = Ok 0%R.
Proof.
  split; [by vm_compute|].
  assert (∀ F (HF : Arith F),
    newman_girvan_modularity (F := F) ring [[0; 1]; [2; 3]]
    = Ok (let half := div (of_int 4) (of_int 8) in
          let term := sub (div (of_int 1) (of_int 4)) (mul half half) in
          add (add (of_int 0) term) term)) as Hgen by (intros; by vm_compute).
  rewrite Hgen. f_equal. simpl. lra.
Qed.


(** The mean can also fall below the min: with seven edges in each
    community the densities are 7/10 and numpy's mean of them is
    0.6999999999999998.  The standard deviation is not negative. *)
Lemma summary_mean_below_min_binary64 :
  ∃ r, internal_edge_density (F := float) three_fives_dense
         [seq 0 5; seq 5 5; seq 10 5] None = Ok (Summary r)
       ∧ min r = Float (div (of_int 7) (of_int 10))
       ∧ max r = Float (div (of_int 7) (of_int 10))
       ∧ PrimFloat.ltb (mean r) (to_float (min r)) = true
       ∧ PrimFloat.leb (to_float (min r)) (mean r) = false
       ∧ PrimFloat.leb 0 (std r) = true.
Proof. eexists. split; [by vm_compute|]. by vm_compute. Qed.

(** C7 fails in binary64: the Erdos-Renyi modularity depends on the order
    of the communities, the running sum being rounded at every step.  Here
    the two orders give 0.13333333333333333 and 0.13333333333333336. *)
Lemma erdos_renyi_modularity_order_binary64 :
  [[0; 1]; [2; 3]; [4; 5]] ≡ₚ [[4; 5]; [2; 3]; [0; 1]]
  ∧ erdos_renyi_modularity (F := float) three_pairs [[0; 1]; [2; 3]; [4; 5]]
    ≠ erdos_renyi_modularity (F := float) three_pairs [[4; 5]; [2; 3]; [0; 1]].
Proof.
  split.
  - etrans; [apply perm_skip, perm_swap|].
    etrans; [apply perm_swap|]. apply perm_skip, perm_swap.
  - intros Heq.
    assert (match erdos_renyi_modularity (F := float) three_pairs
                    [[0; 1]; [2; 3]; [4; 5]],
                  erdos_renyi_modularity (F := float) three_pairs
                    [[4; 5]; [2; 3]; [0; 1]] with
            | Ok x, Ok y => ltb x y
            | _, _ => false
            end = true) as Hlt by (by vm_compute).
    rewrite Heq in Hlt. vm_compute in Hlt. discriminate.
Qed.

(** The theorems above at concrete graphs. *)

Lemma quality_indexes_contract_ring :
  [[0; 1]; [2; 3]] ≠ ([] : list (list nat))
  ∧ quality_indexes (F := float) ring [[0; 1]; [2; 3]] (PQ pq.edges_inside)
      (Some false)
    = Ok (Values (map (λ com, pq.call_community pq.edges_inside
                                (nx.subgraph ring com))
                      [[0; 1]; [2; 3]])).
Proof.
  split; [done|].
  apply (quality_indexes_contract (F := float) ring [[0; 1]; [2; 3]]);
    [done|]. by compute_done.
Defined.

Lemma size_values_ring :
  nx.well_formed ring ∧ node_subsets ring [[0; 1]; [2; 3]]
  ∧ size (F := float) ring [[0; 1]; [2; 3]] (Some false)
    = Ok (Values [Int 2; Int 2]).
Proof.
  split; [by compute_done|]. split; [by compute_done|].
  apply (size_values (F := float) ring [[0; 1]; [2; 3]]); by compute_done.
Defined.

Lemma assignment_last_community_overlap :
  assignment [[0; 1]; [1; 2]; [3]] !! 1 = Some 1.
Proof.
  apply (assignment_last_community [[0; 1]; [1; 2]; [3]] 1 1 [1; 2]).
  - reflexivity.
  - by compute_done.
  - intros [|[|[|j]]] com' Hj Hin; simpl in Hj; try lia.
    + injection Hj as <-. exfalso. revert Hin. by compute_done.
    + discriminate.
Defined.

Lemma erdos_renyi_modularity_spec_examples :
  erdos_renyi_modularity (F := float) ring [[0; 1]; [2; 3]]
  = Ok (erdos_renyi_formula ring [[0; 1]; [2; 3]])
  ∧ erdos_renyi_modularity (F := float) single_node [[0]]
    = Raise ZeroDivisionError.
Proof.
  split.
  - apply (erdos_renyi_modularity_spec (F := float) ring [[0; 1]; [2; 3]]);
      [by compute_done|by compute_done|]. split; reflexivity.
  - apply (erdos_renyi_modularity_spec (F := float) single_node [[0]]);
      [by compute_done|by compute_done|]. right. reflexivity.
Defined.

Lemma surprise_significance_single_node :
  nx.number_of_edges single_node = 0%Z
  ∧ surprise (F := R) single_node [[0]] = Raise ZeroDivisionError
  ∧ significance (F := R) single_node [[0]] = Raise ZeroDivisionError.
Proof.
  split; [reflexivity|].
  apply (surprise_significance_no_edges (F := R) single_node [[0]]).
  reflexivity.
Defined.

Lemma z_modularity_simplifies_ring :
  degree_total ring [0; 1] = 2%Z
  ∧ z_modularity (F := R) ring [[0; 1]; [2; 3]]
    = Ok (z_modularity_simplified ring [[0; 1]; [2; 3]])
  ∧ z_modularity (F := float) ring [[0; 1]; [2; 3]]
    = Ok (z_modularity_simplified ring [[0; 1]; [2; 3]]).
Proof.
  destruct (z_modularity_simplifies ring [[0; 1]; [2; 3]]) as (Hdc & HR & Hf);
    [by compute_done|reflexivity|].
  split; [exact (Hdc [0; 1])|]. split; [exact HR|]. apply Hf. reflexivity.
Defined.

Lemma modularity_order_invariant_ring :
  erdos_renyi_modularity (F := R) ring [[0; 1]; [2; 3]]
  = erdos_renyi_modularity (F := R) ring [[2; 3]; [0; 1]]
  ∧ modularity_density (F := R) ring [[0; 1]; [2; 3]]
    = modularity_density (F := R) ring [[2; 3]; [0; 1]].
Proof.
  apply (modularity_order_invariant ring [[0; 1]; [2; 3]] [[2; 3]; [0; 1]]).
  apply perm_swap.
Defined.

End examples.

(** * Further properties of the scores *)

(** ** When the scores raise *)

Section raising.
Context {A S : Type}.

(** A loop whose body raises nothing but [e] raises nothing but [e]. *)
Lemma for_loop_raise_only (e : exn) (body : S → A → result S)
    (l : list A) (s : S) (e' : exn) :
  (∀ s x e', body s x = Raise e' → e' = e) →
  for_loop body l s = Raise e' → e' = e.
Proof.
  intros Hbody. revert s. induction l as [|x l IH]; intros s; simpl; [done|].
  destruct (body s x) as [s'|e''] eqn:Hx; simpl.
  - apply IH.
  - intros [= <-]. by apply (Hbody s x).
Qed.

(** If moreover the body raises on some item of the list, whatever the
    state, the loop raises. *)
Lemma for_loop_raises (e : exn) (body : S → A → result S)
    (l : list A) (s : S) (x : A) :
  (∀ s x e', body s x = Raise e' → e' = e) →
  x ∈ l → (∀ s, body s x = Raise e) →
  for_loop body l s = Raise e.
Proof.
  intros Hbody Hin Hx. revert s.
  induction l as [|y l IH]; intros s; [by apply elem_of_nil in Hin|]. simpl.
  destruct (body s y) as [s'|e'] eqn:Hy; simpl.
  - apply elem_of_cons in Hin as [->|Hin]; [by rewrite Hx in Hy|by apply IH].
  - f_equal. by apply (Hbody s y).
Qed.

Lemma existsb_Exists (f : A → bool) (l : list A) :
  existsb f l = true ↔ Exists (λ x, f x = true) l.
Proof.
  induction l as [|x l IH]; simpl.
  - split; [done|]. by intros ?%Exists_nil.
  - rewrite Exists_cons, orb_true_iff, IH. done.
Qed.

Lemma existsb_const (b : bool) (l : list A) :
  existsb (λ _, b) l = b && bool_decide (l ≠ []).
Proof.
  destruct l as [|x l]; simpl; [by rewrite andb_false_r|].
  rewrite andb_true_r. destruct b; [done|]. simpl.
  induction l; simpl; done.
Qed.
End raising.

Section raising_scores.
Context {node : Type} `{Countable node}.
Context {F : Type} `{Arith F}.

Abbreviation Graph := (nx.Graph node).
Abbreviation Communities := (list (list node)).

(** The induced subgraph has no node exactly when no node of the community
    is a node of the graph. *)
Lemma subgraph_no_node (graph : Graph) (com : list node) :
  (nx.number_of_nodes (nx.subgraph graph com) =? 0)%Z = true
  ↔ Forall (λ v, v ∉ nx.nodes graph) com.
Proof.
  rewrite Z.eqb_eq. unfold nx.number_of_nodes. simpl.
  rewrite Forall_forall. split.
  - intros Hlen v Hv Hin.
    assert (v ∈ filter (λ v, v ∈ com) (nx.nodes graph)) as Hf
      by (by apply list_elem_of_filter).
    destruct (filter _ (nx.nodes graph)); [by apply elem_of_nil in Hf|].
    simpl in Hlen. lia.
  - intros Hout.
    destruct (filter (λ v, v ∈ com) (nx.nodes graph)) as [|v l] eqn:Hf; [done|].
    assert (v ∈ filter (λ v, v ∈ com) (nx.nodes graph)) as Hv
      by (rewrite Hf; left).
    apply list_elem_of_filter in Hv as [Hv1 Hv2]. by destruct (Hout v).
Qed.

(** X1.  [modularity_density] raises [ZeroDivisionError] when some community
    has no node in the graph (an empty community, for one), and otherwise
    returns the sum of the terms of the communities. *)
Theorem modularity_density_raises (graph : Graph) (communities : Communities) :
  (Exists (Forall (λ v, v ∉ nx.nodes graph)) communities →
   modularity_density graph communities = Raise ZeroDivisionError)
  ∧ (¬ Exists (Forall (λ v, v ∉ nx.nodes graph)) communities →
     modularity_density graph communities
     = Ok (np.sum (map (modularity_density_term graph) communities))).
Proof.
  rewrite modularity_density_cases.
  destruct (existsb _ communities) eqn:Hex.
  - apply existsb_Exists in Hex. split; [done|]. intros Hno. destruct Hno.
    eapply Exists_impl; [exact Hex|]. intros com. apply subgraph_no_node.
  - split; [|done]. intros Hyes.
    assert (existsb (λ community,
              (nx.number_of_nodes (nx.subgraph graph community) =? 0)%Z)
              communities = true) as Hex'; [|congruence].
    apply existsb_Exists. eapply Exists_impl; [exact Hyes|].
    intros com. apply subgraph_no_node.
Qed.

(** X2.  [erdos_renyi_modularity] raises exactly when the graph has no edge,
    or has at most one node and the partition is not empty; the exception
    is [ZeroDivisionError]. *)
Theorem erdos_renyi_modularity_raises (graph : Graph)
    (communities : Communities) (e : exn) :
  erdos_renyi_modularity graph communities = Raise e
  ↔ e = ZeroDivisionError
    ∧ (nx.number_of_edges graph = 0%Z
       ∨ (nx.number_of_nodes graph <= 1)%Z ∧ communities ≠ []).
Proof.
  rewrite erdos_renyi_modularity_cases, existsb_const.
  assert (0 <= nx.number_of_nodes graph)%Z as Hn
    by (unfold nx.number_of_nodes; lia).
  destruct (nx.number_of_nodes graph * (nx.number_of_nodes graph - 1) =? 0)%Z
    eqn:Hnn; [apply Z.eqb_eq in Hnn|apply Z.eqb_neq in Hnn];
    (destruct communities as [|c l]; simpl);
    (destruct (nx.number_of_edges graph =? 0)%Z eqn:Hm;
       [apply Z.eqb_eq in Hm|apply Z.eqb_neq in Hm]);
    split; try (intros [= <-]); try (intros [-> Hor]); try done;
    try (split; [done|]); try tauto; try (right; split; [nia|done]).
  all: destruct Hor as [?|[? ?]]; try done; nia.
Qed.
End raising_scores.

Section raising_more.
Context {node : Type} `{Countable node}.
Context {F : Type} `{Arith F}.

Abbreviation Graph := (nx.Graph node).
Abbreviation Communities := (list (list node)).

(** [z_modularity] by cases: the first community raises when the graph has
    no edge. *)
Lemma z_modularity_cases (graph : Graph) (communities : Communities) :
  ∃ x : F,
    z_modularity graph communities
    = if (nx.number_of_edges graph =? 0)%Z && bool_decide (communities ≠ [])
      then Raise ZeroDivisionError else Ok x.
Proof.
  unfold z_modularity.
  set (m := nx.number_of_edges graph).
  rewrite (for_loop_guard (λ _, (m =? 0)%Z) ZeroDivisionError
    (λ '(mmc, dc2m) community,
       let mc := nx.number_of_edges (nx.subgraph graph community) in
       let dc := degree_total graph community in
       (add mmc (div (of_int mc) (of_int m)),
        add dc2m (mul (div (of_int dc) (of_int (2 * m)))
                      (div (of_int dc) (of_int (2 * m))))))).
  - rewrite existsb_const.
    destruct ((m =? 0)%Z && bool_decide (communities ≠ [])); simpl.
    + by exists (of_int 0).
    + destruct (fold_left _ communities _) as [mmc dc2m]. eauto.
  - intros [mmc dc2m] community. unfold truediv.
    destruct (m =? 0)%Z eqn:Hm; [done|]. apply Z.eqb_neq in Hm.
    by rewrite (proj2 (Z.eqb_neq (2 * m) 0)) by lia.
Qed.

(** X3.  [z_modularity] raises exactly when the graph has no edge and the
    partition is not empty, and then [ZeroDivisionError]. *)
Theorem z_modularity_raises (graph : Graph) (communities : Communities)
    (e : exn) :
  z_modularity graph communities = Raise e
  ↔ e = ZeroDivisionError
    ∧ nx.number_of_edges graph = 0%Z ∧ communities ≠ [].
Proof.
  destruct (z_modularity_cases graph communities) as [x ->].
  destruct (nx.number_of_edges graph =? 0)%Z eqn:Hm;
    [apply Z.eqb_eq in Hm|apply Z.eqb_neq in Hm];
    (destruct communities as [|c l]; simpl);
    split; try (intros [= <-]); try (intros (-> & ? & ?)); done.
Qed.
End raising_more.

(** X4.  On the empty partition [z_modularity] does not raise, whatever the
    graph: in binary64 it returns NaN, the quotient 0/0 of numpy. *)
Theorem z_modularity_empty_partition_nan {node : Type} `{Countable node}
    (graph : nx.Graph node) :
  ∃ x, z_modularity (F := float) graph [] = Ok x ∧ PrimFloat.is_nan x = true.
Proof. eexists. split; [reflexivity|]. by vm_compute. Qed.

(** ** binary64: quotients that are 0 and 1 *)

Section binary64_quotients.
Local Open Scope Z_scope.

(** The quotient of 0 by a positive int is 0. *)
Lemma float_zero_div (c : Z) :
  0 < c < 2 ^ 53 →
  PrimFloat.div (float_of_int 0) (float_of_int c) = 0%float.
Proof.
  intros Hc. apply Prim2SF_inj. rewrite div_spec.
  destruct c as [|p|p]; try lia.
  rewrite (Prim2SF_float_of_int_pos p) by (apply digits2_pos_bound; lia).
  reflexivity.
Qed.

(** The quotient of a positive int by itself is 1. *)
Lemma float_self_div (c : Z) :
  0 < c < 2 ^ 53 →
  PrimFloat.div (float_of_int c) (float_of_int c) = 1%float.
Proof.
  intros Hc. apply Prim2SF_inj. rewrite div_spec.
  destruct c as [|p|p]; try lia.
  assert (Zpos (digits2_pos p) <= 53) as Hd by (apply digits2_pos_bound; lia).
  rewrite (Prim2SF_float_of_int_pos p) by done.
  pose proof (mantissa53_digits p Hd) as Hm.
  set (m := mantissa53 p) in *. set (e := Zpos (digits2_pos p) - 53).
  unfold SF64div, SFdiv, SFdiv_core_binary. simpl Zdigits2. rewrite Hm.
  replace (53 + e - (53 + e)) with 0 by lia.
  replace (e - e) with 0 by lia.
  change (Z.min (fexp prec emax 0) 0) with (-53).
  change (0 - -53) with 53.
  cbv iota zeta. change IntDef.Z.div_eucl with Z.div_eucl.
  assert (Z.div_eucl (Z.shiftl (Zpos m) 53) (Zpos m) = (2 ^ 53, 0)) as ->.
  { rewrite Z.shiftl_mul_pow2 by lia.
    pose proof (Z.div_eucl_eq (Zpos m * 2 ^ 53) (Zpos m)) as Heq.
    pose proof (Z.mod_pos_bound (Zpos m * 2 ^ 53) (Zpos m)) as Hb.
    unfold Z.modulo in Hb.
    destruct (Z.div_eucl (Zpos m * 2 ^ 53) (Zpos m)) as [q r].
    specialize (Heq ltac:(lia)). specialize (Hb ltac:(lia)).
    assert (q = 2 ^ 53) as -> by nia. f_equal. lia. }
  assert (new_location (Zpos m) 0 = loc_Exact) as ->.
  { unfold new_location, new_location_even, new_location_odd.
    by destruct (Z.even (Zpos m)). }
  reflexivity.
Qed.
End binary64_quotients.

(** ** Degenerate communities in [surprise] and [significance] *)

Section degenerate.
Context {node : Type} `{Countable node}.

Abbreviation Graph := (nx.Graph node).
Abbreviation Communities := (list (list node)).

(** No pair can be chosen among fewer than two items. *)
Lemma comb_2_zero (N : Z) : scipy.comb N 2 = 0%Z ↔ (N <= 1)%Z.
Proof.
  unfold scipy.comb. destruct (Z.to_nat N) as [|[|n]] eqn:HN.
  - simpl. lia.
  - simpl. lia.
  - split; [|lia]. intros Hb. exfalso.
    change (scipy.binomial (S (S n)) 2)
      with (scipy.binomial n 0 + scipy.binomial n 1 + scipy.binomial (S n) 2)
      in Hb.
    assert (scipy.binomial n 0 = 1) as Hn0 by (by destruct n). lia.
Qed.

(** Python's division raises nothing but [ZeroDivisionError]. *)
Lemma truediv_raise {F : Type} `{Arith F} (a b : Z) (e : exn) :
  truediv (F := F) a b = Raise e → e = ZeroDivisionError.
Proof. unfold truediv. destruct (b =? 0)%Z; by intros [= <-]. Qed.

Lemma fdiv_raise {F : Type} `{Arith F} (x y : F) (e : exn) :
  fdiv x y = Raise e → e = ZeroDivisionError.
Proof. unfold fdiv. destruct (is_zero y); by intros [= <-]. Qed.

Section significance.
Context {F : Type} `{Arith F} `{Logs F}.

(** X5.  [significance] raises [ZeroDivisionError] when the graph has at
    most one edge, and when some community has fewer than two nodes in the
    graph; it raises no other exception. *)
Theorem significance_raises (graph : Graph) (communities : Communities) :
  ((nx.number_of_edges graph <= 1)%Z →
   significance graph communities = Raise ZeroDivisionError)
  ∧ (Exists (λ com, (nx.number_of_nodes (nx.subgraph graph com) <= 1)%Z)
            communities →
     significance graph communities = Raise ZeroDivisionError)
  ∧ (∀ e, significance graph communities = Raise e → e = ZeroDivisionError).
Proof.
  unfold significance.
  set (m := nx.number_of_edges graph).
  destruct (truediv m (scipy.comb m 2)) as [p|e0] eqn:Hp; simpl.
  - match goal with
    | |- context [for_loop ?b communities _] => set (body := b)
    end.
    assert (∀ q x e, body q x = Raise e → e = ZeroDivisionError) as Honly.
    { clear Hp. intros q x e. unfold body.
      destruct (truediv _ _) as [pc|e1] eqn:Hd1; simpl;
        [|intros [= <-]; by eapply truediv_raise].
      destruct (fdiv pc p) as [a|e2] eqn:Hd2; simpl;
        [|intros [= <-]; by eapply fdiv_raise].
      destruct (fdiv (sub _ pc) _) as [b|e3] eqn:Hd3; simpl;
        [discriminate|intros [= <-]; by eapply fdiv_raise]. }
    split_and!.
    + intros Hm. unfold truediv in Hp.
      by rewrite (proj2 (Z.eqb_eq _ 0) (proj2 (comb_2_zero m) Hm)) in Hp.
    + intros (com & Hin & Hcom)%Exists_exists.
      apply (for_loop_raises ZeroDivisionError body communities _ com);
        [apply Honly|done|].
      intros q. unfold body, truediv.
      by rewrite (proj2 (Z.eqb_eq _ 0) (proj2 (comb_2_zero _) Hcom)).
    + intros e. by apply for_loop_raise_only.
  - apply truediv_raise in Hp as ->. split_and!; [done..|by intros e [= <-]].
Qed.
End significance.
End degenerate.

Section surprise.
Context {node : Type} `{Countable node}.

Abbreviation Graph := (nx.Graph node).
Abbreviation Communities := (list (list node)).

(** A community that contains every node of the graph induces the whole
    node list. *)
Lemma subgraph_all_nodes (graph : Graph) (com : list node) :
  nx.nodes graph ⊆ com → nx.nodes (nx.subgraph graph com) = nx.nodes graph.
Proof.
  simpl. intros Hsub.
  assert (Forall (λ v, v ∈ com) (nx.nodes graph)) as Hall
    by (apply Forall_forall; intros v Hv; by apply Hsub).
  clear Hsub. revert Hall. generalize (nx.nodes graph).
  induction 1 as [|v l Hv _ IH]; [done|].
  rewrite filter_cons, decide_True by done. by rewrite IH.
Qed.

(** Communities of fewer than two nodes add no pair. *)
Lemma no_pairs (graph : Graph) (communities : Communities) (qa : Z) :
  Forall (λ com, (nx.number_of_nodes (nx.subgraph graph com) <= 1)%Z)
         communities →
  fold_left (λ qa community,
      (qa + scipy.comb (nx.number_of_nodes (nx.subgraph graph community)) 2)%Z)
    communities qa = qa.
Proof.
  intros Hall. revert qa.
  induction Hall as [|com l Hcom _ IH]; intros qa; simpl; [done|].
  rewrite IH. apply comb_2_zero in Hcom. lia.
Qed.

(** [surprise] raises on the degenerate partitions in any arithmetic in
    which 0/c is zero and 1 − c/c is zero, c being the number of pairs of
    nodes. *)
Lemma surprise_degenerate_if {F : Type} `{Arith F} `{Logs F}
    (graph : Graph) (communities : Communities) :
  let c := scipy.comb (nx.number_of_nodes graph) 2 in
  (c ≠ 0%Z → is_zero (div (of_int 0) (of_int c)) = true) →
  (c ≠ 0%Z → is_zero (sub (of_int 1) (div (of_int c) (of_int c))) = true) →
  Forall (λ com, (nx.number_of_nodes (nx.subgraph graph com) <= 1)%Z)
         communities
  ∨ (∃ com, communities = [com] ∧ nx.nodes graph ⊆ com) →
  surprise graph communities = Raise ZeroDivisionError.
Proof.
  intros c Hzero Hone Hdeg. unfold surprise.
  rewrite (fold_left_pair
    (λ q community,
       (q + nx.number_of_edges (nx.subgraph graph community))%Z)
    (λ qa community,
       (qa + scipy.comb (nx.number_of_nodes (nx.subgraph graph community)) 2)%Z)).
  fold c. unfold truediv.
  destruct (nx.number_of_edges graph =? 0)%Z; [done|]. simpl.
  destruct (c =? 0)%Z eqn:Hc; [done|]. apply Z.eqb_neq in Hc. simpl.
  destruct Hdeg as [Hsmall|(com & -> & Hall)].
  - rewrite no_pairs by done. unfold fdiv. by rewrite Hzero.
  - assert (nx.number_of_nodes (nx.subgraph graph com)
            = nx.number_of_nodes graph) as Hn
      by (unfold nx.number_of_nodes; by rewrite subgraph_all_nodes).
    cbn [fold_left]. rewrite !Z.add_0_l, Hn. fold c. unfold fdiv.
    destruct (is_zero (div (of_int c) (of_int c))); [done|]. simpl.
    by rewrite Hone.
Qed.

(** X6.  [surprise] raises [ZeroDivisionError] when no community has two
    nodes of the graph (the expected fraction qa is 0) and when the
    partition is one community that contains every node (qa is 1): in exact
    arithmetic, and in binary64, whatever the logarithms compute, when the
    number of pairs of nodes is below 2^53. *)
Theorem surprise_degenerate (graph : Graph) (communities : Communities) :
  Forall (λ com, (nx.number_of_nodes (nx.subgraph graph com) <= 1)%Z)
         communities
  ∨ (∃ com, communities = [com] ∧ nx.nodes graph ⊆ com) →
  surprise (F := R) graph communities = Raise ZeroDivisionError
  ∧ ∀ logs : Logs float,
      (scipy.comb (nx.number_of_nodes graph) 2 < 2 ^ 53)%Z →
      surprise (F := float) graph communities = Raise ZeroDivisionError.
Proof.
  intros Hdeg.
  assert (0 <= scipy.comb (nx.number_of_nodes graph) 2)%Z as Hpos
    by (unfold scipy.comb; lia).
  split.
  - apply surprise_degenerate_if; [| |done]; intros Hc; simpl.
    + destruct (Req_dec_T _ _) as [|Hne]; [done|]. destruct Hne.
      unfold Rdiv. apply Rmult_0_l.
    + destruct (Req_dec_T _ _) as [|Hne]; [done|]. destruct Hne.
      assert (IZR (scipy.comb (nx.number_of_nodes graph) 2) ≠ 0%R)
        by (by apply not_0_IZR).
      by field.
  - intros logs Hbound. apply surprise_degenerate_if; [| |done]; intros Hc; simpl.
    + by rewrite float_zero_div by lia.
    + by rewrite float_self_div by lia.
Qed.
End surprise.

(** ** The node-to-community dictionary *)

Section dictionary.
Context {node : Type} `{Countable node}.

Abbreviation Communities := (list (list node)).

(** What the loops started at id [k] leave for a node: an id given by a
    community that contains it, or what the dictionary had. *)
Lemma assign_from_lookup (k : nat) (communities : Communities)
    (partition : gmap node nat) (v : node) :
  match assign_from k communities partition !! v with
  | Some i =>
      (partition !! v = Some i ∧ ∀ com, com ∈ communities → v ∉ com)
      ∨ (∃ j com, i = k + j ∧ communities !! j = Some com ∧ v ∈ com)
  | None => partition !! v = None ∧ ∀ com, com ∈ communities → v ∉ com
  end.
Proof.
  revert k partition.
  induction communities as [|c l IH]; intros k partition.
  - unfold assign_from. simpl.
    destruct (partition !! v) as [i|]; [left|]; split; try done;
      intros com Hin; by apply elem_of_nil in Hin.
  - rewrite assign_from_cons.
    specialize (IH (S k)
      (fold_left (λ partition node, <[node := k]> partition) c partition)).
    rewrite assign_community in IH.
    destruct (assign_from (S k) l _ !! v) as [i|].
    + destruct IH as [[Hp Hout]|(j & com & -> & Hj & Hin)].
      * destruct (decide (v ∈ c)) as [Hc|Hc].
        -- injection Hp as <-. right. exists 0, c. split_and!; [lia|done..].
        -- left. split; [done|]. by intros com [->|?]%elem_of_cons; [|apply Hout].
      * right. exists (S j), com. split_and!; [lia|done..].
    + destruct IH as [Hp Hout]. destruct (decide (v ∈ c)) as [Hc|Hc]; [done|].
      split; [done|]. by intros com [->|?]%elem_of_cons; [|apply Hout].
Qed.

(** X7.  The dictionary built by [newman_girvan_modularity] has exactly the
    nodes of the communities as its keys, and maps each of them to the
    index of a community that contains it. *)
Theorem assignment_lookup (communities : Communities) (v : node) :
  (assignment communities !! v = None ↔ ∀ com, com ∈ communities → v ∉ com)
  ∧ (∀ i, assignment communities !! v = Some i →
       ∃ com, communities !! i = Some com ∧ v ∈ com).
Proof.
  change (assignment communities) with (assign_from 0 communities ∅).
  pose proof (assign_from_lookup 0 communities ∅ v) as Hlook. split.
  - split.
    + intros Hnone. rewrite Hnone in Hlook. by destruct Hlook.
    + intros Hout. rewrite assign_from_absent; [apply lookup_empty|].
      intros j com Hj. apply Hout. by eapply list_elem_of_lookup_2.
  - intros i Hi. rewrite Hi in Hlook.
    destruct Hlook as [[Hp _]|(j & com & -> & Hj & Hin)].
    + by rewrite lookup_empty in Hp.
    + by exists com.
Qed.
End dictionary.

(** ** The extremes of a summary *)

Section extremes.
Context {node : Type} `{Countable node}.
Context {F : Type} `{Arith F} `{!pq.PartitionQuality node F}.

Abbreviation Graph := (nx.Graph node).

Lemma min_elem_of (values : list (number F)) (mn : number F) :
  builtins.min values = Ok mn → mn ∈ values.
Proof.
  destruct values as [|first rest]; [done|]. simpl. intros [= <-].
  revert first. induction rest as [|x rest IH]; intros first; simpl; [left|].
  destruct (lt x first).
  - right. apply IH.
  - specialize (IH first). apply elem_of_cons in IH as [->|?]; [left|].
    by do 2 right.
Qed.

Lemma max_elem_of (values : list (number F)) (mx : number F) :
  builtins.max values = Ok mx → mx ∈ values.
Proof.
  destruct values as [|first rest]; [done|]. simpl. intros [= <-].
  revert first. induction rest as [|x rest IH]; intros first; simpl; [left|].
  destruct (lt first x).
  - right. apply IH.
  - specialize (IH first). apply elem_of_cons in IH as [->|?]; [left|].
    by do 2 right.
Qed.

(** X8.  On a non-empty partition the min and the max of a summary are the
    scores of two of its communities, in any arithmetic. *)
Theorem summary_extremes_attained (graph : Graph)
    (communities : list (list node))
    (scoring_function : scoring_function) (summary : option bool) :
  communities ≠ [] →
  summary = None ∨ summary = Some true →
  ∃ r, quality_indexes graph communities scoring_function summary
       = Ok (Summary r)
       ∧ (∃ com, com ∈ communities
            ∧ min r = score scoring_function graph (nx.subgraph graph com))
       ∧ (∃ com, com ∈ communities
            ∧ max r = score scoring_function graph (nx.subgraph graph com)).
Proof.
  intros Hne Hsum.
  pose proof (scores_nonempty graph communities scoring_function Hne) as Hvs.
  rewrite quality_indexes_summary by done.
  destruct (min_nonempty _ Hvs) as [mn Hmn].
  destruct (max_nonempty _ Hvs) as [mx Hmx].
  simpl. rewrite Hmn. simpl. rewrite Hmx. simpl.
  eexists. split; [done|]. simpl.
  apply min_elem_of in Hmn. apply max_elem_of in Hmx.
  unfold scores in Hmn, Hmx.
  apply list_elem_of_fmap in Hmn as (c1 & -> & Hc1).
  apply list_elem_of_fmap in Hmx as (c2 & -> & Hc2).
  split; [by exists c1|by exists c2].
Qed.
End extremes.

(** ** Communities as sets of nodes of the graph *)

Section node_sets.
Context {node : Type} `{Countable node}.

Abbreviation Graph := (nx.Graph node).
Abbreviation Communities := (list (list node)).

Lemma filter_same {A : Type} (P Q : A → Prop)
    `{∀ x, Decision (P x)} `{∀ x, Decision (Q x)} (l : list A) :
  (∀ x, x ∈ l → P x ↔ Q x) → filter P l = filter Q l.
Proof.
  induction l as [|x l IH]; intros Hext; [done|].
  rewrite !filter_cons.
  rewrite IH by (intros y Hy; apply Hext; by right).
  destruct (decide (P x)) as [HP|HP], (decide (Q x)) as [HQ|HQ]; try done;
    by destruct (Hext x ltac:(left)); tauto.
Qed.

(** Two communities with the same nodes of the graph induce the same
    subgraph. *)
Lemma subgraph_same_nodes (graph : Graph) (com com' : list node) :
  same_nodes graph com com' → nx.subgraph graph com = nx.subgraph graph com'.
Proof.
  intros Hsame. unfold nx.subgraph.
  by rewrite (filter_same (λ v, v ∈ com) (λ v, v ∈ com') (nx.nodes graph)).
Qed.

Lemma for_loop_Forall2 {A S : Type} (R : A → A → Prop)
    (body : S → A → result S) (l l' : list A) (s : S) :
  Forall2 R l l' → (∀ s x x', R x x' → body s x = body s x') →
  for_loop body l s = for_loop body l' s.
Proof.
  intros Hl Hbody. revert s.
  induction Hl as [|x x' l l' Hx _ IH]; intros s; simpl; [done|].
  rewrite (Hbody s x x' Hx). destruct (body s x'); simpl; [apply IH|done].
Qed.

Lemma fold_left_Forall2 {A S : Type} (R : A → A → Prop)
    (body : S → A → S) (l l' : list A) (s : S) :
  Forall2 R l l' → (∀ s x x', R x x' → body s x = body s x') →
  fold_left body l s = fold_left body l' s.
Proof.
  intros Hl Hbody. revert s.
  induction Hl as [|x x' l l' Hx _ IH]; intros s; simpl; [done|].
  rewrite (Hbody s x x' Hx). apply IH.
Qed.

(** X9.  The scores read a community through the subgraph it induces: two
    partitions whose communities have, one by one, the same nodes of the
    graph get the same results.  The order of the nodes in a community,
    repeated nodes and nodes that are not in the graph change nothing. *)
Theorem scores_of_node_sets {F : Type} `{Arith F} `{Logs F}
    `{!pq.PartitionQuality node F}
    (graph : Graph) (communities communities' : Communities) :
  Forall2 (same_nodes graph) communities communities' →
  erdos_renyi_modularity graph communities
  = erdos_renyi_modularity graph communities'
  ∧ modularity_density graph communities
    = modularity_density graph communities'
  ∧ z_modularity graph communities = z_modularity graph communities'
  ∧ surprise graph communities = surprise graph communities'
  ∧ significance graph communities = significance graph communities'
  ∧ ∀ scoring_function summary,
      quality_indexes graph communities scoring_function summary
      = quality_indexes graph communities' scoring_function summary.
Proof.
  intros Hsame.
  assert (Forall2 (λ com com', nx.subgraph graph com = nx.subgraph graph com')
            communities communities') as Hsub.
  { eapply Forall2_impl; [exact Hsame|]. apply subgraph_same_nodes. }
  split_and!.
  - unfold erdos_renyi_modularity.
    rewrite (for_loop_Forall2 _ _ _ _ _ Hsub); [done|].
    intros q x x' Hx. cbv zeta. by rewrite Hx.
  - unfold modularity_density.
    rewrite (for_loop_Forall2 _ _ _ _ _ Hsub); [done|].
    intros q x x' Hx. cbv zeta. by rewrite Hx.
  - unfold z_modularity.
    rewrite (for_loop_Forall2 _ _ _ _ _ Hsub); [done|].
    intros [mmc dc2m] x x' Hx. cbv zeta. by rewrite Hx.
  - unfold surprise.
    rewrite (fold_left_Forall2 _ _ _ _ _ Hsub); [done|].
    intros [q qa] x x' Hx. cbv zeta. by rewrite Hx.
  - unfold significance.
    destruct (truediv _ _) as [p|e]; simpl; [|done].
    rewrite (for_loop_Forall2 _ _ _ _ _ Hsub); [done|].
    intros q x x' Hx. cbv zeta. by rewrite Hx.
  - intros sf summary. unfold quality_indexes, convert_graph_formats.
    rewrite (fold_left_Forall2 _ _ _ _ _ Hsub); [done|].
    intros values x x' Hx. cbv zeta. by rewrite Hx.
Qed.
End node_sets.

(** ** Graphs of three edges in [significance] *)

Section three_edges.
Context {node : Type} `{Countable node}.

Abbreviation Graph := (nx.Graph node).
Abbreviation Communities := (list (list node)).

(** [significance] raises on a graph of three edges in any arithmetic in
    which 1 − 3/3 is zero: the baseline probability m/comb(m, 2) is 1. *)
Lemma significance_three_edges_if {F : Type} `{Arith F} `{Logs F}
    (graph : Graph) (communities : Communities) :
  is_zero (sub (of_int 1) (div (of_int 3) (of_int 3))) = true →
  nx.number_of_edges graph = 3%Z → communities ≠ [] →
  significance graph communities = Raise ZeroDivisionError.
Proof.
  intros Hone Hm Hne. unfold significance. rewrite Hm.
  change (truediv 3 (scipy.comb 3 2))
    with (Ok (div (of_int 3) (of_int 3)) : result F).
  simpl. destruct communities as [|com l]; [done|]. simpl.
  destruct (truediv _ _) as [pc|e] eqn:Hpc; simpl;
    [|f_equal; by eapply truediv_raise].
  destruct (fdiv pc _) as [a|e] eqn:Ha; simpl;
    [|f_equal; by eapply fdiv_raise].
  unfold fdiv. by rewrite Hone.
Qed.

(** X10.  On every graph with exactly three edges [significance] raises
    [ZeroDivisionError] for every non-empty partition: in exact arithmetic
    and in binary64. *)
Theorem significance_three_edges (graph : Graph) (communities : Communities) :
  nx.number_of_edges graph = 3%Z → communities ≠ [] →
  significance (F := R) graph communities = Raise ZeroDivisionError
  ∧ ∀ logs : Logs float,
      significance (F := float) graph communities = Raise ZeroDivisionError.
Proof.
  intros Hm Hne. split.
  - apply significance_three_edges_if; [|done..]. simpl.
    destruct (Req_dec_T _ _) as [|Hnz]; [done|]. destruct Hnz. lra.
  - intros logs. apply significance_three_edges_if; [|done..]. by vm_compute.
Qed.
End three_edges.

(** ** The partition into one community *)

Section whole_graph.
Context {node : Type} `{Countable node}.

Abbreviation Graph := (nx.Graph node).

(** A community that contains every node induces the graph itself. *)
Lemma subgraph_whole (graph : Graph) (com : list node) :
  nx.well_formed graph → nx.nodes graph ⊆ com → nx.subgraph graph com = graph.
Proof.
  intros [_ Hes] Hsub. unfold nx.subgraph.
  pose proof (subgraph_all_nodes graph com Hsub) as Hns. simpl in Hns.
  rewrite Hns. destruct graph as [ns es]. simpl in *. f_equal.
  clear Hns Hsub. induction Hes as [|e es He _ IH]; [done|].
  rewrite filter_cons, decide_True by done. by rewrite IH.
Qed.

(** X11.  In exact arithmetic the Erdos-Renyi modularity of the partition
    into one community that contains every node is 0. *)
Theorem erdos_renyi_modularity_whole_graph (graph : Graph) (com : list node) :
  nx.well_formed graph →
  (0 < nx.number_of_edges graph)%Z → (1 < nx.number_of_nodes graph)%Z →
  nx.nodes graph ⊆ com →
  erdos_renyi_modularity (F := R) graph [com] = Ok 0%R.
Proof.
  intros Hwf Hm Hn Hsub. rewrite erdos_renyi_modularity_cases.
  unfold erdos_renyi_term. cbv zeta. cbn [existsb map orb].
  rewrite subgraph_whole by done.
  rewrite !(proj2 (Z.eqb_neq _ 0)) by nia. f_equal.
  unfold np.sum. simpl.
  set (m := nx.number_of_edges graph) in *.
  set (n := nx.number_of_nodes graph) in *.
  assert (IZR m ≠ 0%R) by (apply not_0_IZR; lia).
  assert (IZR n ≠ 0%R) by (apply not_0_IZR; lia).
  assert (IZR n - 1 ≠ 0)%R.
  { rewrite <- minus_IZR. apply not_0_IZR. lia. }
  rewrite !mult_IZR, !minus_IZR. by field.
Qed.

Lemma sum_IZR (l : list Z) (a : Z) :
  fold_left Rplus (map IZR l) (IZR a) = IZR (fold_left Z.add l a).
Proof.
  revert a. induction l as [|x l IH]; intros a; simpl; [done|].
  by rewrite <- plus_IZR, IH.
Qed.

Lemma fold_left_degrees (graph : Graph) (ns : list node) (a : Z) :
  fold_left Z.add (map (nx.degree graph) ns) a
  = fold_left (λ dc v, (dc + nx.degree graph v)%Z) ns a.
Proof. revert a. induction ns as [|v ns IH]; intros a; simpl; [done|apply IH]. Qed.

Lemma sum_zeros (ns : list node) (a : R) :
  fold_left Rplus (map (λ _, 0%R) ns) a = a.
Proof.
  revert a. induction ns as [|v ns IH]; intros a; simpl; [done|].
  rewrite IH. lra.
Qed.

(** X12.  In exact arithmetic the modularity density of the partition into
    one community that contains every node is 2m/n², the mean degree over
    the number of nodes. *)
Theorem modularity_density_whole_graph (graph : Graph) (com : list node) :
  nx.well_formed graph → (0 < nx.number_of_nodes graph)%Z →
  nx.nodes graph ⊆ com →
  modularity_density (F := R) graph [com]
  = Ok (2 * IZR (nx.number_of_edges graph)
        / (IZR (nx.number_of_nodes graph) * IZR (nx.number_of_nodes graph)))%R.
Proof.
  intros Hwf Hn Hsub. rewrite modularity_density_cases.
  unfold modularity_density_term. cbv zeta. cbn [existsb map orb].
  rewrite subgraph_whole by done.
  rewrite (proj2 (Z.eqb_neq _ 0)) by lia. f_equal.
  unfold np.mean, np.sum. simpl.
  rewrite !length_map, !map_map.
  rewrite (map_ext (λ v, IZR (nx.degree graph v - nx.degree graph v))
                   (λ _, 0%R)) by (intros v; f_equal; lia).
  rewrite sum_zeros.
  rewrite <- (map_map (nx.degree graph) IZR).
  rewrite (sum_IZR _ 0), fold_left_degrees, degree_sum_edges by done.
  fold (nx.number_of_nodes graph).
  set (m := nx.number_of_edges graph) in *.
  set (n := nx.number_of_nodes graph) in *.
  assert (IZR n ≠ 0%R) by (apply not_0_IZR; lia).
  rewrite mult_IZR. by field.
Qed.
End whole_graph.

(** ** What [size] counts *)

Section size_counts.
Context {node : Type} `{Countable node}.
Context {F : Type} `{Arith F} `{!pq.PartitionQuality node F}.

Abbreviation Graph := (nx.Graph node).
Abbreviation Communities := (list (list node)).

(** X13.  With [summary=False], [size] returns for each community the
    number of distinct nodes it shares with the graph: repeated nodes and
    nodes outside the graph are not counted. *)
Theorem size_counts_graph_nodes (graph : Graph) (communities : Communities) :
  nx.well_formed graph →
  size graph communities (Some false)
  = Ok (Values (map (λ com,
          Int (Z.of_nat (base.size (list_to_set com ∩ list_to_set (nx.nodes graph)
                                    : gset node))))
        communities)).
Proof.
  intros [Hnd _]. unfold size. rewrite quality_indexes_values.
  do 2 f_equal. unfold scores. apply map_ext. intros com. simpl.
  unfold nx.number_of_nodes. simpl. do 2 f_equal.
  rewrite <- (size_list_to_set (C := gset node)) by (by apply NoDup_filter).
  f_equal. apply set_eq. intros v.
  rewrite elem_of_intersection, !elem_of_list_to_set, list_elem_of_filter.
  tauto.
Qed.
End size_counts.

(** ** Sums over the communities, in exact arithmetic *)

Section additive.
Context {node : Type} `{Countable node}.

Abbreviation Graph := (nx.Graph node).
Abbreviation Communities := (list (list node)).

Lemma sum_app (l l' : list R) :
  np.sum (l ++ l') = (np.sum l + np.sum l')%R.
Proof.
  unfold np.sum. simpl. rewrite fold_left_app.
  generalize (fold_left Rplus l 0%R). intros a.
  revert a. induction l' as [|x l' IH]; intros a; simpl; [lra|].
  rewrite (IH (a + x)%R), (IH (0 + x)%R). lra.
Qed.

(** X14.  In exact arithmetic [modularity_density] and
    [erdos_renyi_modularity] are additive: the score of two partitions put
    one after the other is the sum of their scores, and it raises when one
    of the two raises. *)
Theorem modularity_additive (graph : Graph)
    (communities communities' : Communities) :
  modularity_density (F := R) graph (communities ++ communities')
  = (a ← modularity_density graph communities;
     b ← modularity_density graph communities';
     Ok (a + b)%R)
  ∧ erdos_renyi_modularity (F := R) graph (communities ++ communities')
    = (a ← erdos_renyi_modularity graph communities;
       b ← erdos_renyi_modularity graph communities';
       Ok (a + b)%R).
Proof.
  split.
  - rewrite !modularity_density_cases, existsb_app, map_app, sum_app.
    by do 2 (destruct (existsb _ _); simpl; [done|]).
  - rewrite !erdos_renyi_modularity_cases, existsb_app, map_app, sum_app.
    destruct (existsb _ communities), (existsb _ communities'),
      (nx.number_of_edges graph =? 0)%Z; simpl; try done.
    f_equal. lra.
Qed.
End additive.

(** ** When [surprise] raises *)

Section surprise_raises.
Context {node : Type} `{Countable node}.

Abbreviation Graph := (nx.Graph node).
Abbreviation Communities := (list (list node)).

Lemma quotient_zero (a c : Z) :
  c ≠ 0%Z → (IZR a / IZR c = 0)%R ↔ a = 0%Z.
Proof.
  intros Hc. assert (IZR c ≠ 0%R) as Hc' by (by apply not_0_IZR). split.
  - intros Hq. apply eq_IZR_R0.
    apply (Rmult_eq_compat_r (IZR c)) in Hq.
    unfold Rdiv in Hq. rewrite Rmult_assoc, Rinv_l in Hq by done. lra.
  - intros ->. unfold Rdiv. apply Rmult_0_l.
Qed.

Lemma quotient_one (a c : Z) :
  c ≠ 0%Z → (1 - IZR a / IZR c = 0)%R ↔ a = c.
Proof.
  intros Hc. assert (IZR c ≠ 0%R) as Hc' by (by apply not_0_IZR). split.
  - intros Hq. apply eq_IZR.
    assert (IZR a / IZR c = 1)%R as Hq' by lra.
    apply (Rmult_eq_compat_r (IZR c)) in Hq'.
    unfold Rdiv in Hq'. rewrite Rmult_assoc, Rinv_l in Hq' by done. lra.
  - intros ->. by field.
Qed.

(** X15.  In exact arithmetic [surprise] raises exactly in four cases, each
    a [ZeroDivisionError]: the graph has no edge; it has fewer than two
    nodes; no community has two nodes of the graph; the pairs of nodes
    inside the communities are as many as the pairs of nodes of the graph. *)
Theorem surprise_raises_exactly (graph : Graph) (communities : Communities)
    (e : exn) :
  surprise (F := R) graph communities = Raise e
  ↔ e = ZeroDivisionError
    ∧ (nx.number_of_edges graph = 0%Z
       ∨ (nx.number_of_nodes graph <= 1)%Z
       ∨ pairs_inside graph communities = 0%Z
       ∨ pairs_inside graph communities
         = scipy.comb (nx.number_of_nodes graph) 2).
Proof.
  unfold surprise.
  rewrite (fold_left_pair
    (λ q community,
       (q + nx.number_of_edges (nx.subgraph graph community))%Z)
    (λ qa community,
       (qa + scipy.comb (nx.number_of_nodes (nx.subgraph graph community)) 2)%Z)).
  fold (pairs_inside graph communities).
  rewrite <- (comb_2_zero (nx.number_of_nodes graph)).
  set (c := scipy.comb (nx.number_of_nodes graph) 2).
  set (qa := pairs_inside graph communities).
  unfold truediv.
  destruct (nx.number_of_edges graph =? 0)%Z eqn:Hm;
    [apply Z.eqb_eq in Hm|apply Z.eqb_neq in Hm]; simpl.
  { split; [intros [= <-]; tauto|by intros [-> _]]. }
  destruct (c =? 0)%Z eqn:Hc;
    [apply Z.eqb_eq in Hc|apply Z.eqb_neq in Hc]; simpl.
  { split; [intros [= <-]; tauto|by intros [-> _]]. }
  unfold fdiv. simpl.
  destruct (Req_dec_T (IZR qa / IZR c) 0) as [Hz|Hz]; simpl.
  { apply quotient_zero in Hz; [|done].
    split; [intros [= <-]; tauto|by intros [-> _]]. }
  destruct (Req_dec_T (1 - IZR qa / IZR c) 0) as [Ho|Ho]; simpl.
  { apply quotient_one in Ho; [|done].
    split; [intros [= <-]; tauto|by intros [-> _]]. }
  split; [done|]. intros [_ [?|[?|[Hq|Hq]]]]; try done.
  - destruct Hz. by apply quotient_zero.
  - destruct Ho. by apply quotient_one.
Qed.
End surprise_raises.

(** ** Partitions into disjoint communities *)

Section disjoint.
Context {node : Type} `{Countable node}.

Abbreviation Communities := (list (list node)).

(** X16.  When no node belongs to two communities, the dictionary built by
    [newman_girvan_modularity] maps a node to [i] exactly when the [i]-th
    community contains it. *)
Theorem assignment_disjoint (communities : Communities) (v : node) (i : nat) :
  (∀ j j' com com',
     communities !! j = Some com → communities !! j' = Some com' →
     v ∈ com → v ∈ com' → j = j') →
  assignment communities !! v = Some i
  ↔ ∃ com, communities !! i = Some com ∧ v ∈ com.
Proof.
  intros Hdisj. split.
  - intros Hi.
    pose proof (assign_from_lookup 0 communities ∅ v) as Hlook.
    change (assign_from 0 communities ∅) with (assignment communities)
      in Hlook.
    rewrite Hi in Hlook.
    destruct Hlook as [[Hp _]|(j & com & -> & Hj & Hin)].
    + by rewrite lookup_empty in Hp.
    + by exists com.
  - intros (com & Hi & Hin).
    change (assignment communities) with (assign_from 0 communities ∅).
    rewrite (assign_from_last 0 communities ∅ v i com); [done..|].
    intros j com' Hj Hin'. by rewrite (Hdisj j i com' com).
Qed.
End disjoint.

(** ** When [significance] raises *)

Section significance_raises.
Context {node : Type} `{Countable node}.

Abbreviation Graph := (nx.Graph node).
Abbreviation Communities := (list (list node)).

(** The number of pairs among [n] items. *)
Lemma binomial_2 (n : nat) : 2 * scipy.binomial n 2 = n * (n - 1).
Proof.
  assert (∀ k, scipy.binomial k 0 = 1) as H0 by (by intros []).
  assert (∀ k, scipy.binomial k 1 = k) as H1.
  { induction k as [|k IH]; [done|].
    change (scipy.binomial (S k) 1)
      with (scipy.binomial k 0 + scipy.binomial k 1).
    rewrite H0, IH. lia. }
  induction n as [|n IH]; [done|].
  change (scipy.binomial (S n) 2)
    with (scipy.binomial n 1 + scipy.binomial n 2).
  rewrite H1. destruct n; simpl in *; nia.
Qed.

(** Only three edges are as many as their pairs. *)
Lemma comb_2_self (m : Z) : (2 <= m)%Z → scipy.comb m 2 = m ↔ m = 3%Z.
Proof.
  intros Hm. unfold scipy.comb.
  pose proof (binomial_2 (Z.to_nat m)) as Hb.
  split; [|by intros ->].
  intros Hc. nia.
Qed.

(** X17.  In exact arithmetic [significance] raises exactly in three cases,
    each a [ZeroDivisionError]: the graph has at most one edge; some
    community has fewer than two nodes of the graph; the graph has three
    edges and the partition is not empty. *)
Theorem significance_raises_exactly (graph : Graph)
    (communities : Communities) (e : exn) :
  significance (F := R) graph communities = Raise e
  ↔ e = ZeroDivisionError
    ∧ ((nx.number_of_edges graph <= 1)%Z
       ∨ Exists (λ com, (nx.number_of_nodes (nx.subgraph graph com) <= 1)%Z)
                communities
       ∨ nx.number_of_edges graph = 3%Z ∧ communities ≠ []).
Proof.
  unfold significance.
  set (m := nx.number_of_edges graph).
  assert (0 <= m)%Z as Hm0 by (unfold m, nx.number_of_edges; lia).
  assert (truediv (F := R) m (scipy.comb m 2)
          = if (scipy.comb m 2 =? 0)%Z then Raise ZeroDivisionError
            else Ok (IZR m / IZR (scipy.comb m 2))%R) as -> by reflexivity.
  destruct (scipy.comb m 2 =? 0)%Z eqn:Hc;
    [apply Z.eqb_eq in Hc|apply Z.eqb_neq in Hc]; simpl.
  { apply comb_2_zero in Hc.
    split; [intros [= <-]; tauto|by intros [-> _]]. }
  assert (2 <= m)%Z as Hm2.
  { destruct (Z.le_gt_cases m 1) as [Hle|?]; [|lia].
    by apply comb_2_zero in Hle. }
  assert (IZR m ≠ 0%R) as HmR by (apply not_0_IZR; lia).
  assert (IZR (scipy.comb m 2) ≠ 0%R) as HcR by (by apply not_0_IZR).
  set (p := (IZR m / IZR (scipy.comb m 2))%R).
  assert (p ≠ 0%R) as Hp.
  { unfold p. intros Hq. apply quotient_zero in Hq; [lia|done]. }
  assert ((1 - p)%R = 0%R ↔ m = 3%Z) as Hp1.
  { unfold p. rewrite quotient_one by done. split.
    - intros Heq. by apply comb_2_self.
    - intros ->. done. }
  rewrite (for_loop_guard
    (λ com, (scipy.comb (nx.number_of_nodes (nx.subgraph graph com)) 2 =? 0)%Z
            || (m =? 3)%Z)
    ZeroDivisionError
    (λ q community,
       let nc := nx.number_of_nodes (nx.subgraph graph community) in
       let mc := nx.number_of_edges (nx.subgraph graph community) in
       let pc := (IZR mc / IZR (scipy.comb nc 2))%R in
       (q + IZR (scipy.comb nc 2)
            * (pc * ln (pc / p) + (1 - pc) * ln ((1 - pc) / (1 - p))))%R)).
  - destruct (existsb _ communities) eqn:Hex.
    + apply existsb_Exists in Hex. split; [intros [= <-]|by intros [-> _]].
      split; [done|]. right.
      destruct (Z.eq_dec m 3%Z) as [Hm3|Hm3].
      * right. split; [done|]. intros ->. by apply Exists_nil in Hex.
      * left. eapply Exists_impl; [exact Hex|]. intros com Hcom. simpl in Hcom.
        apply orb_true_iff in Hcom as [Hcom|Hcom].
        -- by apply comb_2_zero, Z.eqb_eq.
        -- apply Z.eqb_eq in Hcom. done.
    + split; [done|]. intros [_ [Hle|[Hsmall|[Hm3 Hne]]]]; [lia| |].
      * assert (existsb (λ com,
            (scipy.comb (nx.number_of_nodes (nx.subgraph graph com)) 2 =? 0)%Z
            || (m =? 3)%Z) communities = true) as Hex'; [|congruence].
        apply existsb_Exists. eapply Exists_impl; [exact Hsmall|].
        intros com Hcom. simpl. apply orb_true_iff. left.
        by apply Z.eqb_eq, comb_2_zero.
      * destruct communities as [|c l]; [done|]. simpl in Hex.
        rewrite (proj2 (Z.eqb_eq m 3) Hm3), orb_true_r in Hex. done.
  - intros q com. unfold truediv.
    destruct (scipy.comb _ 2 =? 0)%Z eqn:Hcc; simpl; [done|].
    unfold fdiv. simpl.
    destruct (Req_dec_T p 0) as [|_]; [done|]. simpl.
    destruct (Req_dec_T (1 - p) 0) as [H1|H1]; simpl.
    + apply Hp1 in H1. by rewrite (proj2 (Z.eqb_eq m 3) H1).
    + assert (m ≠ 3%Z) as Hm3 by (intros ?; apply H1; by apply Hp1).
      by rewrite (proj2 (Z.eqb_neq m 3) Hm3).
Qed.
End significance_raises.

(** ** The further properties at concrete graphs *)

Section further_examples.
#[local] Existing Instance example_scores.

Lemma modularity_density_raises_ring :
  Exists (Forall (λ v, v ∉ nx.nodes ring)) [[0; 1]; []]
  ∧ modularity_density (F := float) ring [[0; 1]; []]
    = Raise ZeroDivisionError.
Proof.
  assert (Exists (Forall (λ v, v ∉ nx.nodes ring)) [[0; 1]; []]) as Hex
    by (right; left; constructor).
  split; [exact Hex|].
  by apply (modularity_density_raises (F := float) ring [[0; 1]; []]).
Defined.

Lemma significance_raises_ring :
  significance (F := R) ring [[0; 1]; [2]] = Raise ZeroDivisionError.
Proof.
  apply (significance_raises (F := R) ring [[0; 1]; [2]]).
  right. left. by compute_done.
Defined.

Lemma surprise_degenerate_ring :
  surprise (F := R) ring [[0]; [1]; [2]; [3]] = Raise ZeroDivisionError
  ∧ ∀ logs : Logs float,
      surprise (F := float) ring [[0]; [1]; [2]; [3]]
      = Raise ZeroDivisionError.
Proof.
  destruct (surprise_degenerate ring [[0]; [1]; [2]; [3]]) as [HR Hf].
  - left. repeat constructor; by compute_done.
  - split; [exact HR|]. intros logs. by apply Hf.
Defined.

Lemma assignment_lookup_overlap :
  assignment [[0; 1]; [1; 2]] !! 5 = None
  ∧ ∃ com, [[0; 1]; [1; 2]] !! 1 = Some com ∧ 1 ∈ com.
Proof.
  destruct (assignment_lookup [[0; 1]; [1; 2]] 5) as [Hnone _].
  destruct (assignment_lookup [[0; 1]; [1; 2]] 1) as [_ Hsome].
  split.
  - apply Hnone. intros com Hin.
    repeat (apply elem_of_cons in Hin as [->|Hin]); [by compute_done..|].
    by apply elem_of_nil in Hin.
  - apply Hsome. by vm_compute.
Defined.

Lemma summary_extremes_attained_ring :
  ∃ r, edges_inside (F := float) ring [[0; 1]; [1; 2; 3]] None
       = Ok (Summary r)
       ∧ (∃ com, com ∈ [[0; 1]; [1; 2; 3]]
            ∧ min r = score (PQ pq.edges_inside) ring (nx.subgraph ring com))
       ∧ (∃ com, com ∈ [[0; 1]; [1; 2; 3]]
            ∧ max r = score (PQ pq.edges_inside) ring (nx.subgraph ring com)).
Proof.
  apply (summary_extremes_attained (F := float) ring [[0; 1]; [1; 2; 3]]
           (PQ pq.edges_inside) None); [done|by left].
Defined.

Lemma scores_of_node_sets_ring :
  z_modularity (F := R) ring [[0; 1]; [2; 3]]
  = z_modularity (F := R) ring [[1; 0; 0]; [3; 2; 9]].
Proof.
  apply (scores_of_node_sets (F := R) ring [[0; 1]; [2; 3]]
           [[1; 0; 0]; [3; 2; 9]]).
  constructor; [|constructor; [|constructor]];
    intros v Hv; simpl in Hv;
    repeat (apply elem_of_cons in Hv as [->|Hv]);
    try (by apply elem_of_nil in Hv); by compute_done.
Defined.

Lemma significance_three_edges_pairs :
  nx.number_of_edges three_pairs = 3%Z
  ∧ significance (F := R) three_pairs [[0; 1]; [2; 3]; [4; 5]]
    = Raise ZeroDivisionError.
Proof.
  split; [reflexivity|].
  by apply (significance_three_edges three_pairs [[0; 1]; [2; 3]; [4; 5]]).
Defined.

Lemma erdos_renyi_modularity_whole_ring :
  erdos_renyi_modularity (F := R) ring [[0; 1; 2; 3]] = Ok 0%R.
Proof.
  apply (erdos_renyi_modularity_whole_graph ring [0; 1; 2; 3]);
    [by compute_done|reflexivity|reflexivity|done].
Defined.

Lemma modularity_density_whole_ring :
  modularity_density (F := R) ring [[0; 1; 2; 3]]
  = Ok (2 * IZR 4 / (IZR 4 * IZR 4))%R.
Proof.
  apply (modularity_density_whole_graph ring [0; 1; 2; 3]);
    [by compute_done|reflexivity|done].
Defined.

Lemma size_counts_graph_nodes_ring :
  size (F := float) ring [[0; 1; 1; 7]] (Some false) = Ok (Values [Int 2]).
Proof.
  rewrite (size_counts_graph_nodes (F := float) ring [[0; 1; 1; 7]]);
    [|by compute_done].
  by vm_compute.
Defined.
Lemma assignment_disjoint_pairs :
  assignment [[0; 1]; [2; 3]] !! 2 = Some 1.
Proof.
  apply (assignment_disjoint [[0; 1]; [2; 3]] 2 1).
  - intros j j' com com' Hj Hj' Hin Hin'.
    destruct j as [|[|j]], j' as [|[|j']]; simpl in *; simplify_eq;
      try done; exfalso;
      first [by (revert Hin; compute_done)|by (revert Hin'; compute_done)].
  - exists [2; 3]. split; [done|by compute_done].
Defined.
End further_examples.
